(** * CMVC extension for VS Code: a shallow embedding and its properties

    The development follows [src/extension.ts] (the three-view extension) and
    the earlier single-view extension whose provider recurses eagerly
    ([CMVCExplorerProvider]).  JavaScript strings are modelled by [string]
    (sequences of 8-bit characters compared by character code, which is how
    [Array.prototype.sort] orders code units); an exception or a rejected
    promise is a value [Err e] whose payload is the text [String(error)].

    Calls into the editor host and the shell are oracles, variables of the
    section that defines the service; the file system, Node's [path] module
    and the workspace folder form the class [Workspace].  Every observable
    call of the service is appended to a trace, so that "no process was
    invoked" is a statement about that trace. *)

From Stdlib Require Import Ascii String.
From stdpp Require Import base option list sorting strings gmap.

Local Open Scope string_scope.
Local Open Scope list_scope.

(** ** JavaScript strings *)

(** The character [U+0022]: the template literals of the source put it around
    every interpolated value. *)
Definition dquote : string := String "034"%char EmptyString.

Definition quoted (s : string) : string := dquote +:+ s +:+ dquote.

(** [!s] for a string [s]: only the empty string is falsy. *)
Definition falsy (s : string) : bool :=
  match s with
  | EmptyString => true
  | String _ _ => false
  end.

Definition truthy (s : string) : bool := negb (falsy s).

(** [s.startsWith(p)]. *)
Definition startsWith (s p : string) : bool := String.prefix p s.

(** ** Node's [path.basename] (POSIX flavour)

    The scan runs from the end of the path: trailing separators are skipped,
    then characters are collected up to the next separator. *)
Definition is_sep (c : ascii) : bool := Ascii.eqb c "/"%char.

Fixpoint skip_seps (rev_path : list ascii) : list ascii :=
  match rev_path with
  | c :: rest => if is_sep c then skip_seps rest else rev_path
  | [] => []
  end.

Fixpoint until_sep (rev_path : list ascii) : list ascii :=
  match rev_path with
  | c :: rest => if is_sep c then [] else c :: until_sep rest
  | [] => []
  end.

Definition basename (p : string) : string :=
  string_of_list_ascii
    (rev (until_sep (skip_seps (rev (list_ascii_of_string p))))).

(** ** Outcomes, and the monad of the imperative code

    A computation runs on a mutable state [S]; it returns, throws, or (only in
    the fuel-bounded recursion of the eager provider) runs out of fuel.  The
    state written before a throw is kept, as in JavaScript. *)

Definition error := string.

Inductive result (A : Type) : Type :=
| Ok (a : A)
| Err (e : error).
Arguments Ok {A} a.
Arguments Err {A} e.

#[global] Instance result_eq_dec {A} `{EqDecision A} : EqDecision (result A).
Proof. solve_decision. Defined.

Inductive outcome (A : Type) : Type :=
| Returned (a : A)
| Thrown (e : error)
| Starved.
Arguments Returned {A} a.
Arguments Thrown {A} e.
Arguments Starved {A}.

Definition M (S A : Type) : Type := S -> outcome A * S.

#[global] Instance M_ret {S} : MRet (M S) := fun A a s => (Returned a, s).

#[global] Instance M_bind {S} : MBind (M S) := fun A B k c s =>
  match c s with
  | (Returned a, s') => k a s'
  | (Thrown e, s') => (Thrown e, s')
  | (Starved, s') => (Starved, s')
  end.

Definition gets {S A} (f : S -> A) : M S A := fun s => (Returned (f s), s).

Definition modify {S} (f : S -> S) : M S unit := fun s => (Returned tt, f s).

Definition starve {S A} : M S A := fun s => (Starved, s).

(** A synchronous call that may throw, or an awaited promise that may reject. *)
Definition settle {S A} (r : result A) : M S A := fun s =>
  match r with
  | Ok a => (Returned a, s)
  | Err e => (Thrown e, s)
  end.

(** [try { c } catch (error) { h error }] *)
Definition try_catch {S A} (c : M S A) (h : error -> M S A) : M S A := fun s =>
  match c s with
  | (Thrown e, s') => h e s'
  | r => r
  end.

(** [for (const x of l) { body x }] *)
Fixpoint for_of {S A} (l : list A) (body : A -> M S unit) : M S unit :=
  match l with
  | [] => mret tt
  | x :: rest => body x ;; for_of rest body
  end.

(** ** Tree items *)

Inductive CMVCExplorerItem : Type :=
| ConfigSectionItem (label : string)
| ConfigItem (label value command : string)
| FileExplorerItem (label : string)
| FileItem (label fullPath relativePath : string)
| FolderItem (label fullPath : string)
| TrackSectionItem (label : string)
| TrackItem (label : string).

#[global] Instance CMVCExplorerItem_eq_dec : EqDecision CMVCExplorerItem.
Proof. solve_decision. Defined.

(** [item.resourceUri.fsPath]; only file and folder items set [resourceUri],
    and [Uri.file(p).fsPath] is taken to be [p]. *)
Definition resourceUri (item : CMVCExplorerItem) : option string :=
  match item with
  | FileItem _ fullPath _ => Some fullPath
  | FolderItem _ fullPath => Some fullPath
  | _ => None
  end.

(** ** The service: configuration and command runner *)

Record CMVCConfig : Type := mkConfig {
  family : string;
  release : string;
  defect : string
}.

Record TextDocument : Type := mkDocument {
  content : string;
  language : string
}.

Inductive Effect : Type :=
| ShowErrorMessage (message : string)
| ShowInformationMessage (message : string)
| ExecAsync (command : string)
| OpenTextDocument (doc : TextDocument)
| ShowTextDocument (doc : TextDocument) (preview : bool)
| ShowInputBox (prompt value : string)
| FilesProviderRefresh.

(** [World]: the service's [config] field, the host's key/value store
    ([context.workspaceState] in [extension.ts], the [cmvc] section of the
    workspace settings in the single-view variant) and the trace of calls. *)
Record World : Type := mkWorld {
  config : CMVCConfig;
  storage : gmap string string;
  effects : list Effect
}.

Definition emit (e : Effect) : M World unit :=
  modify (fun w => mkWorld (config w) (storage w) (effects w ++ [e])).

Definition set_config (c : CMVCConfig) : M World unit :=
  modify (fun w => mkWorld c (storage w) (effects w)).

(** [Memento.get(key, defaultValue)] and [Memento.update(key, value)]. *)
Definition storage_get (key defaultValue : string) : M World string :=
  gets (fun w => default defaultValue (storage w !! key)).

Definition storage_update (key value : string) : M World unit :=
  modify (fun w => mkWorld (config w) (<[key := value]> (storage w)) (effects w)).

Definition showErrorMessage (message : string) : M World unit :=
  emit (ShowErrorMessage message).

Definition showInformationMessage (message : string) : M World unit :=
  emit (ShowInformationMessage message).

Section Service.

(** The promisified [child_process.exec]: resolves with [(stdout, stderr)]
    or rejects (spawn failure, non-zero exit status). *)
Variable execAsync : string -> result (string * string).

(** [vscode.workspace.openTextDocument] and [vscode.window.showTextDocument]. *)
Variable openTextDocument : TextDocument -> result TextDocument.
Variable showTextDocument : TextDocument -> result unit.

(** [vscode.window.showInputBox]: the answer typed for a prompt and an
    initial value; [None] when the box is dismissed. *)
Variable showInputBox : string -> string -> option string.

Definition run_execAsync (command : string) : M World (string * string) :=
  emit (ExecAsync command) ;; settle (execAsync command).

(** *** Configuration store ([extension.ts], lines 29-58) *)

Definition loadConfig : M World unit :=
  f ← storage_get "cmvc.family" EmptyString;
  c ← gets config;
  set_config (mkConfig f (release c) (defect c)) ;;
  r ← storage_get "cmvc.release" EmptyString;
  c ← gets config;
  set_config (mkConfig (family c) r (defect c)) ;;
  d ← storage_get "cmvc.defect" EmptyString;
  c ← gets config;
  set_config (mkConfig (family c) (release c) d).

Definition saveConfig : M World unit :=
  c ← gets config;
  storage_update "cmvc.family" (family c) ;;
  storage_update "cmvc.release" (release c) ;;
  storage_update "cmvc.defect" (defect c).

(** [new CMVCService(context)]: the field initialiser, then [loadConfig]. *)
Definition new_CMVCService : M World unit :=
  set_config (mkConfig EmptyString EmptyString EmptyString) ;;
  loadConfig.

Definition getConfig : M World CMVCConfig :=
  c ← gets config;
  mret (mkConfig (family c) (release c) (defect c)).

Definition setFamily (value : string) : M World unit :=
  c ← gets config;
  set_config (mkConfig value (release c) (defect c)) ;;
  saveConfig.

Definition setRelease (value : string) : M World unit :=
  c ← gets config;
  set_config (mkConfig (family c) value (defect c)) ;;
  saveConfig.

Definition setDefect (value : string) : M World unit :=
  c ← gets config;
  set_config (mkConfig (family c) (release c) value) ;;
  saveConfig.

(** *** Command runner ([extension.ts], lines 60-123) *)

Definition checkin_command (filePath : string) (c : CMVCConfig) : string :=
  "File -checkin " +:+ quoted filePath +:+ " -defect " +:+ quoted (defect c)
    +:+ " -release " +:+ quoted (release c)
    +:+ " -family " +:+ quoted (family c).

Definition checkout_command (filePath : string) (c : CMVCConfig) : string :=
  "File -checkout " +:+ quoted filePath +:+ " -defect " +:+ quoted (defect c)
    +:+ " -release " +:+ quoted (release c)
    +:+ " -family " +:+ quoted (family c).

Definition view_command (filePath : string) (c : CMVCConfig) : string :=
  "File -view " +:+ quoted filePath +:+ " -release " +:+ quoted (release c)
    +:+ " -family " +:+ quoted (family c).

Definition checkin (filePath : string) : M World unit :=
  c ← gets config;
  if falsy (family c) || falsy (release c) || falsy (defect c) then
    showErrorMessage "Please set Family, Release, and Defect values first."
  else
    try_catch
      (let command := checkin_command filePath c in
       '(stdout, stderr) ← run_execAsync command;
       if truthy stderr then
         showErrorMessage ("Checkin failed: " +:+ stderr)
       else
         showInformationMessage
           ("Successfully checked in: " +:+ basename filePath))
      (fun error => showErrorMessage ("Checkin failed: " +:+ error)).

Definition checkout (filePath : string) : M World unit :=
  c ← gets config;
  if falsy (family c) || falsy (release c) || falsy (defect c) then
    showErrorMessage "Please set Family, Release, and Defect values first."
  else
    try_catch
      (let command := checkout_command filePath c in
       '(stdout, stderr) ← run_execAsync command;
       if truthy stderr then
         showErrorMessage ("Checkout failed: " +:+ stderr)
       else
         showInformationMessage
           ("Successfully checked out: " +:+ basename filePath))
      (fun error => showErrorMessage ("Checkout failed: " +:+ error)).

Definition view (filePath : string) : M World unit :=
  c ← gets config;
  if falsy (family c) || falsy (release c) then
    showErrorMessage "Please set Family and Release values first."
  else
    try_catch
      (let command := view_command filePath c in
       '(stdout, stderr) ← run_execAsync command;
       if truthy stderr then
         showErrorMessage ("View failed: " +:+ stderr)
       else
         let request := mkDocument stdout "text" in
         emit (OpenTextDocument request) ;;
         document ← settle (openTextDocument request);
         emit (ShowTextDocument document false) ;;
         settle (showTextDocument document))
      (fun error => showErrorMessage ("View failed: " +:+ error)).

(** *** Command handlers ([extension.ts], lines 398-472)

    A handler receives whatever the host passes: [None] is [undefined]. *)

Definition on_item (item : option CMVCExplorerItem)
    (action : string -> M World unit) : M World unit :=
  match item with
  | Some it =>
      match resourceUri it with
      | Some fsPath => action fsPath
      | None => mret tt
      end
  | None => mret tt
  end.

Definition cmvc_checkin (item : option CMVCExplorerItem) : M World unit :=
  on_item item checkin.

Definition cmvc_checkout (item : option CMVCExplorerItem) : M World unit :=
  on_item item checkout.

Definition cmvc_view (item : option CMVCExplorerItem) : M World unit :=
  on_item item view.

Definition create_command (fsPath component : string) (c : CMVCConfig) : string :=
  "File -create " +:+ quoted fsPath +:+ " -component " +:+ quoted component
    +:+ " -defect " +:+ quoted (defect c)
    +:+ " -release " +:+ quoted (release c)
    +:+ " -family " +:+ quoted (family c).

Definition cmvc_create (item : option CMVCExplorerItem) : M World unit :=
  match item ≫= resourceUri with
  | None => showErrorMessage "No file selected for creation."
  | Some fsPath =>
      lastComponent ← storage_get "cmvc.lastComponent" EmptyString;
      emit (ShowInputBox "Enter Component" lastComponent) ;;
      match showInputBox "Enter Component" lastComponent with
      | None => showErrorMessage "Component is required."
      | Some component =>
          if falsy component then
            showErrorMessage "Component is required."
          else
            storage_update "cmvc.lastComponent" component ;;
            c ← getConfig;
            let command := create_command fsPath component c in
            try_catch
              ('(stdout, stderr) ← run_execAsync command;
               if truthy stderr then
                 showErrorMessage ("Create failed: " +:+ stderr)
               else
                 showInformationMessage
                   ("Successfully created: " +:+ fsPath) ;;
                 emit FilesProviderRefresh)
              (fun error => showErrorMessage ("Create failed: " +:+ error))
      end
  end.

End Service.

(** *** The single-view variant: configuration kept in workspace settings

    [vscode.workspace.getConfiguration('cmvc')] reads and writes the settings
    whose full names are the section, a dot, and the key.  The store holds the
    workspace-level values, which is where [update] writes them. *)
Module Settings.

Definition configuration_get (section key defaultValue : string) : M World string :=
  storage_get (section +:+ "." +:+ key) defaultValue.

Definition configuration_update (section key value : string) : M World unit :=
  storage_update (section +:+ "." +:+ key) value.

Definition loadConfig : M World unit :=
  let workspaceConfig := "cmvc" in
  f ← configuration_get workspaceConfig "family" EmptyString;
  c ← gets config;
  set_config (mkConfig f (release c) (defect c)) ;;
  r ← configuration_get workspaceConfig "release" EmptyString;
  c ← gets config;
  set_config (mkConfig (family c) r (defect c)) ;;
  d ← configuration_get workspaceConfig "defect" EmptyString;
  c ← gets config;
  set_config (mkConfig (family c) (release c) d).

Definition saveConfig : M World unit :=
  let workspaceConfig := "cmvc" in
  c ← gets config;
  configuration_update workspaceConfig "family" (family c) ;;
  configuration_update workspaceConfig "release" (release c) ;;
  configuration_update workspaceConfig "defect" (defect c).

Definition new_CMVCService : M World unit :=
  set_config (mkConfig EmptyString EmptyString EmptyString) ;;
  loadConfig.

Definition setFamily (value : string) : M World unit :=
  c ← gets config;
  set_config (mkConfig value (release c) (defect c)) ;;
  saveConfig.

Definition setRelease (value : string) : M World unit :=
  c ← gets config;
  set_config (mkConfig (family c) value (defect c)) ;;
  saveConfig.

Definition setDefect (value : string) : M World unit :=
  c ← gets config;
  set_config (mkConfig (family c) (release c) value) ;;
  saveConfig.

End Settings.

(** ** Tree providers over the file system *)

(** The array a listing fills, and what it wrote with [console.error]. *)
Record Listing : Type := mkListing {
  items : list CMVCExplorerItem;
  console : list (string * error)
}.

Definition push (it : CMVCExplorerItem) : M Listing unit :=
  modify (fun l => mkListing (items l ++ [it]) (console l)).

Definition console_error (label : string) (e : error) : M Listing unit :=
  modify (fun l => mkListing (items l) (console l ++ [(label, e)])).

(** [const items = []; body(items); return items;] for a provider whose only
    lasting state is the console. *)
Definition with_new_array (body : M Listing unit) :
    M (list (string * error)) (list CMVCExplorerItem) := fun log =>
  match body (mkListing [] log) with
  | (Returned _, l) => (Returned (items l), console l)
  | (Thrown e, l) => (Thrown e, console l)
  | (Starved, l) => (Starved, console l)
  end.

(** [names.sort()]: ascending by code unit.  The order is total and
    antisymmetric, so every sorting algorithm returns this list. *)
Definition sort (names : list string) : list string := merge_sort String.le names.

(** The test both providers apply to a directory's name. *)
Definition shown_directory (file : string) : bool :=
  negb (String.eqb file "node_modules") && negb (String.eqb file ".git")
    && negb (startsWith file ".").

(** What the providers see of the machine: Node's [fs] and [path] modules
    and the editor's first workspace folder. *)
Class Workspace : Type := {
  (** [fs.readdirSync(p)]; [Err] when the call throws. *)
  readdirSync : string -> result (list string);
  (** [fs.statSync(p).isDirectory()]; [Err] when [statSync] throws. *)
  statSync : string -> result bool;
  (** [path.join] and [path.relative]. *)
  join : string -> string -> string;
  relative : string -> string -> string;
  (** [vscode.workspace.workspaceFolders?.[0].uri.fsPath] *)
  workspaceFolders : option string
}.

Section Providers.

Context {ws : Workspace}.

(** *** The lazy provider, [CMVCFilesProvider] ([extension.ts], 272-325) *)

(** The first loop of [getDirectoryContents], with its two local arrays. *)
Fixpoint classify (dirPath : string) (files directories filesList : list string) :
    M Listing (list string * list string) :=
  match files with
  | [] => mret (directories, filesList)
  | file :: rest =>
      let fullPath := join dirPath file in
      isDirectory ← settle (statSync fullPath);
      if (isDirectory : bool) then
        if shown_directory file then
          classify dirPath rest (directories ++ [file]) filesList
        else
          classify dirPath rest directories filesList
      else
        classify dirPath rest directories (filesList ++ [file])
  end.

(** [vscode.workspace.workspaceFolders![0].uri.fsPath] *)
Definition first_workspace_folder : result string :=
  match workspaceFolders with
  | Some root => Ok root
  | None => Err "TypeError: Cannot read properties of undefined (reading '0')"
  end.

Definition getDirectoryContents (dirPath : string) : M Listing unit :=
  try_catch
    (files ← settle (readdirSync dirPath);
     '(directories, filesList) ← classify dirPath files [] [];
     let directories := sort directories in
     let filesList := sort filesList in
     for_of directories (fun dir =>
       let fullPath := join dirPath dir in
       push (FolderItem dir fullPath)) ;;
     for_of filesList (fun file =>
       let fullPath := join dirPath file in
       root ← settle first_workspace_folder;
       let relativePath := relative root fullPath in
       push (FileItem file fullPath relativePath)))
    (fun error => console_error "Error reading directory:" error).

Definition getWorkspaceFiles : M (list (string * error)) (list CMVCExplorerItem) :=
  match workspaceFolders with
  | None => mret []
  | Some root => with_new_array (getDirectoryContents root)
  end.

Definition getFolderContents (folderPath : string) :
    M (list (string * error)) (list CMVCExplorerItem) :=
  with_new_array (getDirectoryContents folderPath).

Definition getChildren (element : option CMVCExplorerItem) :
    M (list (string * error)) (list CMVCExplorerItem) :=
  match element with
  | None => getWorkspaceFiles
  | Some (FolderItem _ fsPath) => getFolderContents fsPath
  | Some _ => mret []
  end.

(** *** The eager provider, [CMVCExplorerProvider] (single-view variant)

    The recursion follows the directories of the file system; [fuel] bounds
    its depth and [Starved] is returned when it is used up. *)
Fixpoint getFilesRecursively (fuel : nat) (dirPath rootPath : string) : M Listing unit :=
  match fuel with
  | 0 => starve
  | S fuel' =>
      try_catch
        (files ← settle (readdirSync dirPath);
         for_of files (fun file =>
           let fullPath := join dirPath file in
           isDirectory ← settle (statSync fullPath);
           if (isDirectory : bool) then
             if shown_directory file then
               let folderItem := FolderItem file fullPath in
               push folderItem ;;
               getFilesRecursively fuel' fullPath rootPath
             else mret tt
           else
             let relativePath := relative rootPath fullPath in
             push (FileItem file fullPath relativePath)))
        (fun error => console_error "Error reading directory:" error)
  end.

Definition getFiles (fuel : nat) : M (list (string * error)) (list CMVCExplorerItem) :=
  match workspaceFolders with
  | None => mret []
  | Some root => with_new_array (getFilesRecursively fuel root root)
  end.

(** What the host can display from the lazy provider: the root listing,
    and the children of every folder item it has been given. *)
Inductive lazy_reachable : CMVCExplorerItem -> Prop :=
| reachable_root log children log' x :
    getChildren None log = (Returned children, log') ->
    x ∈ children ->
    lazy_reachable x
| reachable_child parent log children log' x :
    lazy_reachable parent ->
    getChildren (Some parent) log = (Returned children, log') ->
    x ∈ children ->
    lazy_reachable x.

End Providers.

(** ** Sample inputs

    Small worlds and workspaces on which the definitions are evaluated. *)

Definition posix_join (dirPath file : string) : string := dirPath +:+ "/" +:+ file.

(** [path.relative] for a path that lies below the root. *)
Definition below_root (rootPath fullPath : string) : string :=
  String.substring (S (String.length rootPath)) (String.length fullPath) fullPath.

(** A project with a source folder, two folders that are not shown, a dot
    file, and an unreadable folder:
<<
    /ws/src/z.ts   /ws/src/m.ts   /ws/b.txt   /ws/.git/   /ws/.env
    /ws/node_modules/   /ws/a.txt   /ws/lib/ (EACCES)
>> *)
Definition project_readdir (p : string) : result (list string) :=
  if String.eqb p "/ws" then
    Ok ["src"; "b.txt"; ".git"; ".env"; "node_modules"; "a.txt"; "lib"]
  else if String.eqb p "/ws/src" then Ok ["z.ts"; "m.ts"]
  else if String.eqb p "/ws/lib" then Err "EACCES: permission denied, scandir '/ws/lib'"
  else Err "ENOENT: no such file or directory".

Definition project_is_directory (p : string) : bool :=
  String.eqb p "/ws/src" || String.eqb p "/ws/.git"
    || String.eqb p "/ws/node_modules" || String.eqb p "/ws/lib".

Definition project : Workspace := {|
  readdirSync := project_readdir;
  statSync := fun p => Ok (project_is_directory p);
  join := posix_join;
  relative := below_root;
  workspaceFolders := Some "/ws"
|}.

Definition project_rank (p : string) : nat :=
  if String.eqb p "/ws" then 1 else 0.

(** A workspace with a dangling symbolic link: [readdirSync] reports the
    entry [gone], and [statSync], which follows links, throws on it. *)
Definition dangling_readdir (p : string) : result (list string) :=
  if String.eqb p "/ws" then Ok ["a.txt"; "gone"]
  else Err "ENOENT: no such file or directory".

Definition dangling_stat (p : string) : result bool :=
  if String.eqb p "/ws/gone" then Err "ENOENT: no such file or directory, stat '/ws/gone'"
  else Ok false.

Definition dangling : Workspace := {|
  readdirSync := dangling_readdir;
  statSync := dangling_stat;
  join := posix_join;
  relative := below_root;
  workspaceFolders := Some "/ws"
|}.

(** A shell whose [File] command succeeds silently, one that complains, and
    a host that opens and shows every document. *)
Definition quiet_shell (command : string) : result (string * string) :=
  Ok ("done", EmptyString).

Definition failing_shell (command : string) : result (string * string) :=
  Ok (EmptyString, "File: not locked").

Definition open_any (doc : TextDocument) : result TextDocument := Ok doc.

Definition show_any (doc : TextDocument) : result unit := Ok tt.

Definition world_F1 : World := mkWorld (mkConfig "F1" "R1" "D1") ∅ [].

Definition world_unset : World :=
  mkWorld (mkConfig EmptyString EmptyString EmptyString) ∅ [].

Definition world_no_defect : World := mkWorld (mkConfig "F1" "R1" EmptyString) ∅ [].

(** * Properties *)

(** ** Strings *)

Lemma falsy_empty (s : string) : falsy s = true <-> s = EmptyString.
Proof. destruct s; simpl; split; congruence. Qed.

Lemma truthy_nonempty (s : string) : truthy s = true <-> s <> EmptyString.
Proof. unfold truthy. destruct s; simpl; split; congruence. Qed.

Lemma falsy_nonempty (s : string) : falsy s = false <-> s <> EmptyString.
Proof. destruct s; simpl; split; congruence. Qed.

Lemma append_assoc (a b c : string) : (a +:+ b) +:+ c = a +:+ b +:+ c.
Proof.
  induction a as [| ch a IH]; [reflexivity |].
  change (String ch ((a +:+ b) +:+ c) = String ch (a +:+ b +:+ c)).
  f_equal. exact IH.
Qed.

Lemma quoted_then (s rest : string) :
  quoted s +:+ rest = dquote +:+ s +:+ dquote +:+ rest.
Proof. unfold quoted. rewrite !append_assoc. reflexivity. Qed.

Example basename_of_nested_path : basename "/ws/a.txt" = "a.txt".
Proof. reflexivity. Qed.

Example basename_skips_trailing_separators : basename "a/b//" = "b".
Proof. reflexivity. Qed.

Example dquote_code : dquote = String (ascii_of_nat 34) EmptyString.
Proof. reflexivity. Qed.

(** ** Running the service *)

(** Unfolds the monadic plumbing of a service operation. *)
Ltac run_service :=
  unfold showErrorMessage, showInformationMessage, run_execAsync, emit,
    set_config, storage_get, storage_update, try_catch, settle, gets, modify,
    mbind, mret, M_bind, M_ret;
  simpl.

(** A world extended by some effects, everything else kept. *)
Definition after (w : World) (es : list Effect) : World :=
  mkWorld (config w) (storage w) (effects w ++ es).

Definition needs_all : string := "Please set Family, Release, and Defect values first.".
Definition needs_two : string := "Please set Family and Release values first.".

Section ServiceFacts.

Variable execAsync : string -> result (string * string).
Variable openTextDocument : TextDocument -> result TextDocument.
Variable showTextDocument : TextDocument -> result unit.
Variable showInputBox : string -> string -> option string.

Lemma checkin_unset (filePath : string) (w : World) :
  falsy (family (config w)) || falsy (release (config w))
    || falsy (defect (config w)) = true ->
  checkin execAsync filePath w = (Returned tt, after w [ShowErrorMessage needs_all]).
Proof. intros H. unfold checkin. run_service. rewrite H. reflexivity. Qed.

Lemma checkout_unset (filePath : string) (w : World) :
  falsy (family (config w)) || falsy (release (config w))
    || falsy (defect (config w)) = true ->
  checkout execAsync filePath w = (Returned tt, after w [ShowErrorMessage needs_all]).
Proof. intros H. unfold checkout. run_service. rewrite H. reflexivity. Qed.

Lemma view_unset (filePath : string) (w : World) :
  falsy (family (config w)) || falsy (release (config w)) = true ->
  view execAsync openTextDocument showTextDocument filePath w
    = (Returned tt, after w [ShowErrorMessage needs_two]).
Proof. intros H. unfold view. run_service. rewrite H. reflexivity. Qed.

Lemma some_field_empty (c : CMVCConfig) :
  family c = EmptyString \/ release c = EmptyString \/ defect c = EmptyString ->
  falsy (family c) || falsy (release c) || falsy (defect c) = true.
Proof.
  intros [H | [H | H]]; rewrite H; simpl;
    rewrite ?orb_true_r; reflexivity.
Qed.

Lemma all_fields_set (c : CMVCConfig) :
  family c <> EmptyString -> release c <> EmptyString -> defect c <> EmptyString ->
  falsy (family c) || falsy (release c) || falsy (defect c) = false.
Proof.
  intros Hf Hr Hd.
  apply falsy_nonempty in Hf, Hr, Hd. rewrite Hf, Hr, Hd. reflexivity.
Qed.

(** C1.  With an empty family, release or defect, [checkin] and [checkout]
    only show an error message; with an empty family or release, so does
    [view].  The resulting world differs from the initial one by that one
    message: the trace gains no [ExecAsync], and the configuration and the
    store are the same. *)
Theorem unset_config_never_reaches_the_shell (filePath : string) (w : World) :
  (family (config w) = EmptyString \/ release (config w) = EmptyString
     \/ defect (config w) = EmptyString ->
   checkin execAsync filePath w
     = (Returned tt, after w [ShowErrorMessage needs_all])
   /\ checkout execAsync filePath w
     = (Returned tt, after w [ShowErrorMessage needs_all]))
  /\ (family (config w) = EmptyString \/ release (config w) = EmptyString ->
      view execAsync openTextDocument showTextDocument filePath w
        = (Returned tt, after w [ShowErrorMessage needs_two])).
Proof.
  split.
  - intros H. apply some_field_empty in H.
    split; [apply checkin_unset | apply checkout_unset]; exact H.
  - intros H. apply view_unset.
    destruct H as [H | H]; rewrite H; simpl; rewrite ?orb_true_r; reflexivity.
Qed.

(** *** The shell ran: what is reported *)

Lemma checkin_ran (filePath stdout stderr : string) (w : World) :
  falsy (family (config w)) || falsy (release (config w))
    || falsy (defect (config w)) = false ->
  execAsync (checkin_command filePath (config w)) = Ok (stdout, stderr) ->
  checkin execAsync filePath w
    = (Returned tt,
       after w [ExecAsync (checkin_command filePath (config w));
                if truthy stderr
                then ShowErrorMessage ("Checkin failed: " +:+ stderr)
                else ShowInformationMessage
                       ("Successfully checked in: " +:+ basename filePath)]).
Proof.
  intros Hset Hexec. unfold checkin. run_service. rewrite Hset, Hexec.
  unfold after. destruct (truthy stderr); simpl; rewrite <- app_assoc; reflexivity.
Qed.

Lemma checkout_ran (filePath stdout stderr : string) (w : World) :
  falsy (family (config w)) || falsy (release (config w))
    || falsy (defect (config w)) = false ->
  execAsync (checkout_command filePath (config w)) = Ok (stdout, stderr) ->
  checkout execAsync filePath w
    = (Returned tt,
       after w [ExecAsync (checkout_command filePath (config w));
                if truthy stderr
                then ShowErrorMessage ("Checkout failed: " +:+ stderr)
                else ShowInformationMessage
                       ("Successfully checked out: " +:+ basename filePath)]).
Proof.
  intros Hset Hexec. unfold checkout. run_service. rewrite Hset, Hexec.
  unfold after. destruct (truthy stderr); simpl; rewrite <- app_assoc; reflexivity.
Qed.

(** What [view] does once the shell has answered with an empty [stderr]:
    the document is requested, then shown; a rejection of either step is
    reported by the handler of the enclosing [try]. *)
Definition view_shows (stdout : string) : list Effect :=
  let request := mkDocument stdout "text" in
  OpenTextDocument request ::
    match openTextDocument request with
    | Ok document =>
        ShowTextDocument document false ::
          match showTextDocument document with
          | Ok _ => []
          | Err e => [ShowErrorMessage ("View failed: " +:+ e)]
          end
    | Err e => [ShowErrorMessage ("View failed: " +:+ e)]
    end.

Lemma view_ran (filePath stdout stderr : string) (w : World) :
  falsy (family (config w)) || falsy (release (config w)) = false ->
  execAsync (view_command filePath (config w)) = Ok (stdout, stderr) ->
  view execAsync openTextDocument showTextDocument filePath w
    = (Returned tt,
       after w (ExecAsync (view_command filePath (config w)) ::
                if truthy stderr
                then [ShowErrorMessage ("View failed: " +:+ stderr)]
                else view_shows stdout)).
Proof.
  intros Hset Hexec. unfold view, view_shows. run_service. rewrite Hset, Hexec.
  unfold after. destruct (truthy stderr); simpl.
  - rewrite <- app_assoc. reflexivity.
  - destruct (openTextDocument _) as [document | e]; simpl.
    + destruct (showTextDocument document) as [[] | e]; simpl;
        rewrite <- !app_assoc; reflexivity.
    + rewrite <- !app_assoc. reflexivity.
Qed.

(** C2.  With the configuration F1/R1/D1, [checkin "/ws/a.txt"] passes the
    shell exactly the command of the specification's example and, when the
    process answers with an empty [stderr], shows "Successfully checked in:
    a.txt": these two calls are all the operation adds to the trace. *)
Theorem checkin_example (stdout : string) (store : gmap string string)
    (trace : list Effect) :
  let command :=
    "File -checkin " +:+ dquote +:+ "/ws/a.txt" +:+ dquote
      +:+ " -defect " +:+ dquote +:+ "D1" +:+ dquote
      +:+ " -release " +:+ dquote +:+ "R1" +:+ dquote
      +:+ " -family " +:+ dquote +:+ "F1" +:+ dquote in
  execAsync command = Ok (stdout, EmptyString) ->
  checkin execAsync "/ws/a.txt" (mkWorld (mkConfig "F1" "R1" "D1") store trace)
    = (Returned tt,
       mkWorld (mkConfig "F1" "R1" "D1") store
         (trace ++ [ExecAsync command;
                    ShowInformationMessage "Successfully checked in: a.txt"])).
Proof.
  intros command Hexec.
  rewrite (checkin_ran _ stdout EmptyString); [reflexivity | reflexivity | exact Hexec].
Qed.

(** C4.  When the precondition of an operation holds and the process
    answers [(stdout, stderr)]: a non-empty [stderr] is shown in a failure
    message; with an empty [stderr], [checkin] and [checkout] show their
    success message, in which [stdout] does not occur, and [view] requests
    a new text document whose content is [stdout]. *)
Theorem stderr_decides_the_report (filePath stdout stderr : string) (w : World) :
  let c := config w in
  family c <> EmptyString -> release c <> EmptyString ->
  (defect c <> EmptyString ->
   execAsync (checkin_command filePath c) = Ok (stdout, stderr) ->
   checkin execAsync filePath w
     = (Returned tt,
        after w [ExecAsync (checkin_command filePath c);
                 if decide (stderr = EmptyString)
                 then ShowInformationMessage
                        ("Successfully checked in: " +:+ basename filePath)
                 else ShowErrorMessage ("Checkin failed: " +:+ stderr)]))
  /\ (defect c <> EmptyString ->
      execAsync (checkout_command filePath c) = Ok (stdout, stderr) ->
      checkout execAsync filePath w
        = (Returned tt,
           after w [ExecAsync (checkout_command filePath c);
                    if decide (stderr = EmptyString)
                    then ShowInformationMessage
                           ("Successfully checked out: " +:+ basename filePath)
                    else ShowErrorMessage ("Checkout failed: " +:+ stderr)]))
  /\ (execAsync (view_command filePath c) = Ok (stdout, stderr) ->
      exists rest,
        view execAsync openTextDocument showTextDocument filePath w
          = (Returned tt,
             after w (ExecAsync (view_command filePath c) ::
                      if decide (stderr = EmptyString)
                      then OpenTextDocument (mkDocument stdout "text") :: rest
                      else [ShowErrorMessage ("View failed: " +:+ stderr)]))).
Proof.
  intros c Hf Hr. subst c. repeat split.
  - intros Hd Hexec.
    rewrite (checkin_ran _ stdout stderr); auto using all_fields_set.
    destruct stderr; reflexivity.
  - intros Hd Hexec.
    rewrite (checkout_ran _ stdout stderr); auto using all_fields_set.
    destruct stderr; reflexivity.
  - intros Hexec.
    assert (falsy (family (config w)) || falsy (release (config w)) = false) as Hset.
    { apply falsy_nonempty in Hf, Hr. rewrite Hf, Hr. reflexivity. }
    rewrite (view_ran _ stdout stderr); auto.
    destruct stderr; simpl.
    + unfold view_shows. eexists. reflexivity.
    + exists []. reflexivity.
Qed.

(** *** Configuration store *)

Lemma setFamily_run (v : string) (w : World) :
  setFamily v w
    = (Returned tt,
       mkWorld (mkConfig v (release (config w)) (defect (config w)))
         (<["cmvc.defect" := defect (config w)]>
            (<["cmvc.release" := release (config w)]>
               (<["cmvc.family" := v]> (storage w))))
         (effects w)).
Proof. reflexivity. Qed.

Lemma setRelease_run (v : string) (w : World) :
  setRelease v w
    = (Returned tt,
       mkWorld (mkConfig (family (config w)) v (defect (config w)))
         (<["cmvc.defect" := defect (config w)]>
            (<["cmvc.release" := v]>
               (<["cmvc.family" := family (config w)]> (storage w))))
         (effects w)).
Proof. reflexivity. Qed.

Lemma setDefect_run (v : string) (w : World) :
  setDefect v w
    = (Returned tt,
       mkWorld (mkConfig (family (config w)) (release (config w)) v)
         (<["cmvc.defect" := v]>
            (<["cmvc.release" := release (config w)]>
               (<["cmvc.family" := family (config w)]> (storage w))))
         (effects w)).
Proof. reflexivity. Qed.

Lemma new_CMVCService_run (w : World) :
  new_CMVCService w
    = (Returned tt,
       mkWorld
         (mkConfig (default EmptyString (storage w !! "cmvc.family"))
            (default EmptyString (storage w !! "cmvc.release"))
            (default EmptyString (storage w !! "cmvc.defect")))
         (storage w) (effects w)).
Proof. reflexivity. Qed.

(** C6.  Each setter overwrites its own field of the configuration and
    leaves the other two as they were, as read back through [getConfig]. *)
Theorem setters_frame (v : string) (w : World) :
  let c := config w in
  fst (getConfig (snd (setFamily v w)))
    = Returned (mkConfig v (release c) (defect c))
  /\ fst (getConfig (snd (setRelease v w)))
    = Returned (mkConfig (family c) v (defect c))
  /\ fst (getConfig (snd (setDefect v w)))
    = Returned (mkConfig (family c) (release c) v).
Proof. repeat split. Qed.

(** *** Command handlers *)

Lemma on_item_without_uri (item : option CMVCExplorerItem)
    (action : string -> M World unit) (w : World) :
  item ≫= resourceUri = None ->
  on_item item action w = (Returned tt, w).
Proof.
  unfold on_item. destruct item as [it |]; simpl; [| reflexivity].
  intros ->. reflexivity.
Qed.

(** C10.  Handed [undefined], or an item without a [resourceUri], the
    [cmvc.checkin], [cmvc.checkout] and [cmvc.view] handlers return with
    the world as it was: no service operation has run, the trace has no new
    entry. *)
Theorem handlers_ignore_items_without_uri
    (item : option CMVCExplorerItem) (w : World) :
  item = None \/ (exists it, item = Some it /\ resourceUri it = None) ->
  cmvc_checkin execAsync item w = (Returned tt, w)
  /\ cmvc_checkout execAsync item w = (Returned tt, w)
  /\ cmvc_view execAsync openTextDocument showTextDocument item w
     = (Returned tt, w).
Proof.
  intros H.
  assert (item ≫= resourceUri = None) as Hnone.
  { destruct H as [-> | (it & -> & Huri)]; [reflexivity | exact Huri]. }
  unfold cmvc_checkin, cmvc_checkout, cmvc_view.
  repeat split; apply on_item_without_uri; exact Hnone.
Qed.

(** What [cmvc.create] reports after the shell has been called. *)
Definition create_reports (fsPath : string) (answer : result (string * string)) :
    list Effect :=
  match answer with
  | Ok (_, stderr) =>
      if truthy stderr then [ShowErrorMessage ("Create failed: " +:+ stderr)]
      else [ShowInformationMessage ("Successfully created: " +:+ fsPath);
            FilesProviderRefresh]
  | Err e => [ShowErrorMessage ("Create failed: " +:+ e)]
  end.

Lemma create_ran (item : option CMVCExplorerItem) (fsPath component : string)
    (w : World) :
  let lastComponent := default EmptyString (storage w !! "cmvc.lastComponent") in
  let command := create_command fsPath component (config w) in
  item ≫= resourceUri = Some fsPath ->
  showInputBox "Enter Component" lastComponent = Some component ->
  component <> EmptyString ->
  cmvc_create execAsync showInputBox item w
    = (Returned tt,
       mkWorld (config w) (<["cmvc.lastComponent" := component]> (storage w))
         (effects w ++ ShowInputBox "Enter Component" lastComponent ::
            ExecAsync command :: create_reports fsPath (execAsync command))).
Proof.
  intros lastComponent command Huri Hbox Hne. subst lastComponent command.
  destruct w as [[f r d] store trace]. simpl in *.
  unfold cmvc_create. rewrite Huri. run_service. rewrite Hbox.
  apply falsy_nonempty in Hne. rewrite Hne.
  unfold getConfig. run_service. unfold create_reports.
  destruct (execAsync _) as [[stdout stderr] | e]; simpl;
    [destruct (truthy stderr); simpl |];
    rewrite <- ?app_assoc; reflexivity.
Qed.

Lemma create_without_component (item : option CMVCExplorerItem)
    (fsPath : string) (w : World) :
  let lastComponent := default EmptyString (storage w !! "cmvc.lastComponent") in
  item ≫= resourceUri = Some fsPath ->
  showInputBox "Enter Component" lastComponent = None
    \/ showInputBox "Enter Component" lastComponent = Some EmptyString ->
  cmvc_create execAsync showInputBox item w
    = (Returned tt,
       after w [ShowInputBox "Enter Component" lastComponent;
                ShowErrorMessage "Component is required."]).
Proof.
  intros lastComponent Huri Hbox.
  unfold cmvc_create. rewrite Huri. run_service. fold lastComponent.
  destruct Hbox as [-> | ->]; simpl; unfold after;
    rewrite <- app_assoc; reflexivity.
Qed.

Lemma create_without_item (item : option CMVCExplorerItem) (w : World) :
  item ≫= resourceUri = None ->
  cmvc_create execAsync showInputBox item w
    = (Returned tt, after w [ShowErrorMessage "No file selected for creation."]).
Proof. intros Huri. unfold cmvc_create. rewrite Huri. reflexivity. Qed.

(** C9.  [cmvc.create] never tests the configuration.  For a selected file
    and a configuration whose three fields are empty, a non-empty component
    typed by the user leads to a [File -create] command being run with the
    three empty values between their quotes; a dismissed prompt or an empty
    component is the case that stops the handler before the shell. *)
Theorem create_runs_with_empty_config (item : option CMVCExplorerItem)
    (fsPath : string) (w : World) :
  let lastComponent := default EmptyString (storage w !! "cmvc.lastComponent") in
  config w = mkConfig EmptyString EmptyString EmptyString ->
  item ≫= resourceUri = Some fsPath ->
  (forall component,
     showInputBox "Enter Component" lastComponent = Some component ->
     component <> EmptyString ->
     let command :=
       "File -create " +:+ dquote +:+ fsPath +:+ dquote
         +:+ " -component " +:+ dquote +:+ component +:+ dquote
         +:+ " -defect " +:+ dquote +:+ dquote
         +:+ " -release " +:+ dquote +:+ dquote
         +:+ " -family " +:+ dquote +:+ dquote in
     exists reports : list Effect,
       effects (snd (cmvc_create execAsync showInputBox item w))
         = (effects w ++ ShowInputBox "Enter Component" lastComponent ::
              ExecAsync command :: reports)%list)
  /\ (showInputBox "Enter Component" lastComponent = None
        \/ showInputBox "Enter Component" lastComponent = Some EmptyString ->
      cmvc_create execAsync showInputBox item w
        = (Returned tt,
           after w [ShowInputBox "Enter Component" lastComponent;
                    ShowErrorMessage "Component is required."])).
Proof.
  intros lastComponent Hcfg Huri. split.
  - intros component Hbox Hne command.
    rewrite (create_ran item fsPath component w Huri Hbox Hne). simpl.
    rewrite Hcfg. unfold create_command. rewrite !quoted_then.
    eexists. reflexivity.
  - intros Hbox. exact (create_without_component item fsPath w Huri Hbox).
Qed.

End ServiceFacts.

(** ** Persistence of the configuration *)

(** A restart of the host: the service is built anew over what the store
    holds; nothing else survives. *)
Definition reload (stored : gmap string string) : World :=
  snd (new_CMVCService (mkWorld (mkConfig EmptyString EmptyString EmptyString) stored [])).

Definition reload_settings (stored : gmap string string) : World :=
  snd (Settings.new_CMVCService
         (mkWorld (mkConfig EmptyString EmptyString EmptyString) stored [])).

Lemma reload_config (stored : gmap string string) :
  config (reload stored)
    = mkConfig (default EmptyString (stored !! "cmvc.family"))
        (default EmptyString (stored !! "cmvc.release"))
        (default EmptyString (stored !! "cmvc.defect")).
Proof. reflexivity. Qed.

Lemma reload_settings_config (stored : gmap string string) :
  config (reload_settings stored)
    = mkConfig (default EmptyString (stored !! "cmvc.family"))
        (default EmptyString (stored !! "cmvc.release"))
        (default EmptyString (stored !! "cmvc.defect")).
Proof. reflexivity. Qed.

(** The settings variant addresses the same three keys, so its store
    operations coincide with those of [extension.ts]. *)
Lemma settings_keys (key value : string) (w : World) :
  Settings.configuration_update "cmvc" key value w
    = storage_update ("cmvc." +:+ key) value w
  /\ Settings.configuration_get "cmvc" key value w
    = storage_get ("cmvc." +:+ key) value w.
Proof. split; reflexivity. Qed.

Lemma settings_setters (v : string) (w : World) :
  Settings.setFamily v w = setFamily v w
  /\ Settings.setRelease v w = setRelease v w
  /\ Settings.setDefect v w = setDefect v w.
Proof. repeat split. Qed.

Lemma reload_settings_reload (stored : gmap string string) :
  reload_settings stored = reload stored.
Proof. reflexivity. Qed.

Lemma saved_then_loaded (f r d : string) (stored : gmap string string) :
  let saved :=
    <["cmvc.defect" := d]> (<["cmvc.release" := r]> (<["cmvc.family" := f]> stored)) in
  saved !! "cmvc.family" = Some f
  /\ saved !! "cmvc.release" = Some r
  /\ saved !! "cmvc.defect" = Some d.
Proof.
  intros saved. subst saved. repeat split.
  - rewrite !lookup_insert_ne by done. apply lookup_insert_eq.
  - rewrite lookup_insert_ne by done. apply lookup_insert_eq.
  - apply lookup_insert_eq.
Qed.

(** C5.  After [setFamily v], [setRelease v] or [setDefect v] the store holds
    [v] under [cmvc.family], [cmvc.release] or [cmvc.defect], and a service
    rebuilt from that store has [v] in the field that was set (and the values
    the other two fields had).  The same holds for the variant that keeps the
    three values in the [cmvc] section of the workspace settings. *)
Theorem config_survives_reload (v : string) (w : World) :
  let c := config w in
  (storage (snd (setFamily v w)) !! "cmvc.family" = Some v
   /\ config (reload (storage (snd (setFamily v w))))
      = mkConfig v (release c) (defect c))
  /\ (storage (snd (setRelease v w)) !! "cmvc.release" = Some v
      /\ config (reload (storage (snd (setRelease v w))))
         = mkConfig (family c) v (defect c))
  /\ (storage (snd (setDefect v w)) !! "cmvc.defect" = Some v
      /\ config (reload (storage (snd (setDefect v w))))
         = mkConfig (family c) (release c) v)
  /\ config (reload_settings (storage (snd (Settings.setFamily v w))))
     = mkConfig v (release c) (defect c)
  /\ config (reload_settings (storage (snd (Settings.setRelease v w))))
     = mkConfig (family c) v (defect c)
  /\ config (reload_settings (storage (snd (Settings.setDefect v w))))
     = mkConfig (family c) (release c) v.
Proof.
  intros c. subst c.
  destruct (settings_setters v w) as (-> & -> & ->).
  rewrite ?reload_settings_config, ?reload_config.
  rewrite setFamily_run, setRelease_run, setDefect_run. cbn [snd storage].
  pose proof (saved_then_loaded v (release (config w)) (defect (config w)) (storage w))
    as (Hf1 & Hf2 & Hf3).
  pose proof (saved_then_loaded (family (config w)) v (defect (config w)) (storage w))
    as (Hr1 & Hr2 & Hr3).
  pose proof (saved_then_loaded (family (config w)) (release (config w)) v (storage w))
    as (Hd1 & Hd2 & Hd3).
  cbn zeta in *.
  rewrite Hf1, Hf2, Hf3, Hr1, Hr2, Hr3, Hd1, Hd2, Hd3.
  repeat split.
Qed.

(** ** Tree providers *)

(** A listing state with more items pushed and more errors logged. *)
Definition extend (st : Listing) (its : list CMVCExplorerItem)
    (log : list (string * error)) : Listing :=
  mkListing (items st ++ its) (console st ++ log).

Definition reading_failed (e : error) : list (string * error) :=
  [("Error reading directory:", e)].

Lemma extend_nothing (st : Listing) : extend st [] [] = st.
Proof. destruct st. unfold extend. simpl. rewrite !app_nil_r. reflexivity. Qed.

Lemma extend_extend (st : Listing) its1 log1 its2 log2 :
  extend (extend st its1 log1) its2 log2 = extend st (its1 ++ its2) (log1 ++ log2).
Proof. unfold extend. simpl. rewrite !app_assoc. reflexivity. Qed.

(** Any algorithm that returns the names in ascending order returns what
    [sort] returns: the model does not depend on the engine's sort. *)
Lemma sort_unique (names sorted : list string) :
  sorted ≡ₚ names -> StronglySorted String.le sorted -> sorted = sort names.
Proof.
  intros Hperm Hsorted. unfold sort.
  apply (StronglySorted_unique String.le); [exact Hsorted | |].
  - apply StronglySorted_merge_sort; apply _.
  - rewrite merge_sort_Permutation. exact Hperm.
Qed.

Example sort_by_code_unit :
  sort ["b.txt"; ".env"; "a.txt"; "B.txt"] = [".env"; "B.txt"; "a.txt"; "b.txt"].
Proof. reflexivity. Qed.


Lemma bind_run {S A B} (c : M S A) (k : A -> M S B) (s : S) :
  (c ≫= k) s
    = match c s with
      | (Returned a, s') => k a s'
      | (Thrown e, s') => (Thrown e, s')
      | (Starved, s') => (Starved, s')
      end.
Proof. reflexivity. Qed.

Lemma try_catch_run {S A} (c : M S A) (h : error -> M S A) (s : S) :
  try_catch c h s
    = match c s with
      | (Thrown e, s') => h e s'
      | r => r
      end.
Proof. reflexivity. Qed.

Lemma console_error_run (e : error) (st : Listing) :
  console_error "Error reading directory:" e st
    = (Returned tt, extend st [] (reading_failed e)).
Proof. unfold console_error, modify, extend. rewrite app_nil_r. reflexivity. Qed.

Lemma push_run (it : CMVCExplorerItem) (st : Listing) :
  push it st = (Returned tt, extend st [it] []).
Proof. unfold push, modify, extend. rewrite app_nil_r. reflexivity. Qed.

Ltac run_listing :=
  unfold push, console_error, try_catch, settle, starve, gets, modify,
    mbind, mret, M_bind, M_ret;
  simpl.


Section ProviderFacts.

Context {ws : Workspace}.

Definition folder_of (dirPath dir : string) : CMVCExplorerItem :=
  FolderItem dir (join dirPath dir).

Definition file_of (rootPath dirPath file : string) : CMVCExplorerItem :=
  FileItem file (join dirPath file) (relative rootPath (join dirPath file)).

(** *** The loops of the lazy listing *)

Lemma push_folders (dirPath : string) (dirs : list string) (st : Listing) :
  for_of dirs (fun dir => push (FolderItem dir (join dirPath dir))) st
    = (Returned tt, extend st (folder_of dirPath <$> dirs) []).
Proof.
  revert st. induction dirs as [| d dirs IH]; intros st.
  - simpl. rewrite extend_nothing. reflexivity.
  - simpl. run_listing. rewrite IH. unfold extend. simpl.
    rewrite <- !app_assoc. reflexivity.
Qed.

Lemma push_files (root dirPath : string) (files : list string) (st : Listing) :
  workspaceFolders = Some root ->
  for_of files (fun file =>
      root ← settle first_workspace_folder;
      push (FileItem file (join dirPath file) (relative root (join dirPath file)))) st
    = (Returned tt, extend st (file_of root dirPath <$> files) []).
Proof.
  intros Hroot. unfold first_workspace_folder. rewrite Hroot.
  revert st. induction files as [| f files IH]; intros st.
  - simpl. rewrite extend_nothing. reflexivity.
  - simpl. run_listing. rewrite IH. unfold extend. simpl.
    rewrite <- !app_assoc. reflexivity.
Qed.

Lemma push_files_without_workspace (dirPath : string) (files : list string)
    (st : Listing) :
  workspaceFolders = None ->
  for_of files (fun file =>
      root ← settle first_workspace_folder;
      push (FileItem file (join dirPath file) (relative root (join dirPath file)))) st
    = (match files with
       | [] => Returned tt
       | _ :: _ =>
           Thrown "TypeError: Cannot read properties of undefined (reading '0')"
       end, st).
Proof.
  intros Hroot. unfold first_workspace_folder. rewrite Hroot.
  destruct files; reflexivity.
Qed.

(** The classification loop reads the file system only: it leaves the
    listing as it is and either returns the two arrays or throws what
    [statSync] threw. *)
Lemma classify_pure (dirPath : string) (files dirs plain : list string)
    (st : Listing) :
  classify dirPath files dirs plain st
    = (fst (classify dirPath files dirs plain (mkListing [] [])), st).
Proof.
  revert dirs plain. induction files as [| f files IH]; intros dirs plain.
  - reflexivity.
  - simpl. run_listing.
    destruct (statSync (join dirPath f)) as [[] |]; [| | reflexivity].
    + destruct (shown_directory f); apply IH.
    + apply IH.
Qed.

Lemma classify_never_starves (dirPath : string) (files dirs plain : list string)
    (st : Listing) :
  fst (classify dirPath files dirs plain st) <> Starved.
Proof.
  revert dirs plain. induction files as [| f files IH]; intros dirs plain.
  - discriminate.
  - simpl. run_listing.
    destruct (statSync (join dirPath f)) as [[] |]; [| | discriminate].
    + destruct (shown_directory f); apply IH.
    + apply IH.
Qed.

Lemma getChildren_root (root : string) (log : list (string * error)) :
  workspaceFolders = Some root ->
  getChildren None log = getFolderContents root log.
Proof.
  intros Hroot. simpl. unfold getWorkspaceFiles, getFolderContents.
  destruct workspaceFolders as [r |]; [| discriminate].
  injection Hroot as ->. reflexivity.
Qed.

(** *** An unreadable directory *)

Lemma getDirectoryContents_unreadable (dirPath : string) (e : error)
    (st : Listing) :
  readdirSync dirPath = Err e ->
  getDirectoryContents dirPath st = (Returned tt, extend st [] (reading_failed e)).
Proof.
  intros Hread. unfold getDirectoryContents. run_listing.
  rewrite Hread. unfold extend. simpl. rewrite app_nil_r. reflexivity.
Qed.

Lemma getFilesRecursively_unreadable (fuel : nat) (dirPath rootPath : string)
    (e : error) (st : Listing) :
  readdirSync dirPath = Err e ->
  getFilesRecursively (S fuel) dirPath rootPath st
    = (Returned tt, extend st [] (reading_failed e)).
Proof.
  intros Hread. simpl. run_listing.
  rewrite Hread. unfold extend. simpl. rewrite app_nil_r. reflexivity.
Qed.

(** C7.  When [readdirSync] throws on a directory, its listing is empty
    and the error is logged: the lazy provider answers the request for the
    folder's children (or for the workspace root) with the empty list, and
    the recursive call of the eager provider returns normally to the loop
    that made it, having pushed nothing and logged the error. *)
Theorem unreadable_directory_lists_nothing (dirPath : string) (e : error) :
  readdirSync dirPath = Err e ->
  (forall label log,
     getChildren (Some (FolderItem label dirPath)) log
       = (Returned [], log ++ reading_failed e))
  /\ (workspaceFolders = Some dirPath ->
      forall log, getChildren None log = (Returned [], log ++ reading_failed e))
  /\ (forall st,
        getDirectoryContents dirPath st
          = (Returned tt, mkListing (items st) (console st ++ reading_failed e)))
  /\ (forall fuel rootPath st,
        getFilesRecursively (S fuel) dirPath rootPath st
          = (Returned tt, mkListing (items st) (console st ++ reading_failed e))).
Proof.
  intros Hread.
  assert (forall log,
    getFolderContents dirPath log = (Returned [], log ++ reading_failed e)) as Hfolder.
  { intros log. unfold getFolderContents, with_new_array.
    rewrite (getDirectoryContents_unreadable _ e) by exact Hread. reflexivity. }
  repeat split.
  - intros label log. apply Hfolder.
  - intros Hroot log. rewrite (getChildren_root dirPath) by exact Hroot. apply Hfolder.
  - intros st. rewrite (getDirectoryContents_unreadable _ e) by exact Hread.
    unfold extend. rewrite app_nil_r. reflexivity.
  - intros fuel rootPath st.
    rewrite (getFilesRecursively_unreadable _ _ _ e) by exact Hread.
    unfold extend. rewrite app_nil_r. reflexivity.
Qed.

(** *** The lazy listing of a directory *)

(** The names [classify] puts in its two arrays. *)
Definition kept_directory (dirPath file : string) : Prop :=
  statSync (join dirPath file) = Ok true /\ shown_directory file = true.

Definition plain_file (dirPath file : string) : Prop :=
  statSync (join dirPath file) = Ok false.

#[local] Instance kept_directory_dec dirPath file : Decision (kept_directory dirPath file).
Proof. unfold kept_directory. apply _. Defined.

#[local] Instance plain_file_dec dirPath file : Decision (plain_file dirPath file).
Proof. unfold plain_file. apply _. Defined.

Lemma classify_all_stated (dirPath : string) (files dirs plain : list string)
    (st : Listing) :
  (forall n, n ∈ files -> exists b, statSync (join dirPath n) = Ok b) ->
  classify dirPath files dirs plain st
    = (Returned (dirs ++ filter (kept_directory dirPath) files,
                 plain ++ filter (plain_file dirPath) files), st).
Proof.
  revert dirs plain. induction files as [| f files IH]; intros dirs plain Hstat.
  - simpl. rewrite !app_nil_r. reflexivity.
  - assert (forall n, n ∈ files -> exists b, statSync (join dirPath n) = Ok b) as Hrest.
    { intros n Hn. apply Hstat. right. exact Hn. }
    destruct (Hstat f) as [b Hb]; [left |].
    simpl. run_listing. rewrite Hb. rewrite !filter_cons.
    destruct (decide (kept_directory dirPath f)) as [[Hk Hshown] | Hnk];
      destruct (decide (plain_file dirPath f)) as [Hp | Hnp];
      unfold plain_file, kept_directory in *.
    + congruence.
    + rewrite Hb in Hk. injection Hk as ->. rewrite Hshown.
      rewrite IH by exact Hrest. rewrite <- app_assoc. reflexivity.
    + rewrite Hb in Hp. injection Hp as ->.
      rewrite IH by exact Hrest. rewrite <- app_assoc. reflexivity.
    + destruct b; [| congruence].
      destruct (shown_directory f); [tauto |].
      rewrite IH by exact Hrest. reflexivity.
Qed.

Lemma getDirectoryContents_readable (root dirPath : string) (names : list string)
    (st : Listing) :
  workspaceFolders = Some root ->
  readdirSync dirPath = Ok names ->
  (forall n, n ∈ names -> exists b, statSync (join dirPath n) = Ok b) ->
  getDirectoryContents dirPath st
    = (Returned tt,
       extend st
         ((folder_of dirPath <$> sort (filter (kept_directory dirPath) names))
            ++ (file_of root dirPath <$> sort (filter (plain_file dirPath) names)))
         []).
Proof.
  intros Hroot Hread Hstat. unfold getDirectoryContents.
  rewrite try_catch_run, bind_run. unfold settle at 1. rewrite Hread.
  rewrite bind_run, (classify_all_stated dirPath names [] [] st Hstat).
  cbn [app]. rewrite bind_run, push_folders.
  rewrite (push_files root) by exact Hroot.
  rewrite extend_extend. reflexivity.
Qed.

(** Whatever the file system answers, a listing returns: it only appends
    items and logged errors to the state it was given. *)
Lemma getDirectoryContents_appends (dirPath : string) :
  exists its log, forall st,
    getDirectoryContents dirPath st = (Returned tt, extend st its log).
Proof.
  unfold getDirectoryContents.
  destruct (readdirSync dirPath) as [names | e] eqn:Hread.
  - pose proof (classify_never_starves dirPath names [] [] (mkListing [] [])) as Hnot.
    destruct (fst (classify dirPath names [] [] (mkListing [] [])))
      as [[dirs plain] | e |] eqn:Hclass; [| | congruence].
    + destruct workspaceFolders as [root |] eqn:Hroot.
      * exists ((folder_of dirPath <$> sort dirs) ++ (file_of root dirPath <$> sort plain)), [].
        intros st. rewrite try_catch_run, bind_run. unfold settle at 1.
        rewrite bind_run, classify_pure, Hclass.
        rewrite bind_run, push_folders. rewrite (push_files root) by exact Hroot.
        rewrite extend_extend. reflexivity.
      * destruct (sort plain) as [| f rest] eqn:Hsorted.
        -- exists (folder_of dirPath <$> sort dirs), [].
           intros st. rewrite try_catch_run, bind_run. unfold settle at 1.
           rewrite bind_run, classify_pure, Hclass.
           rewrite bind_run, push_folders, push_files_without_workspace by exact Hroot.
           rewrite Hsorted. reflexivity.
        -- exists (folder_of dirPath <$> sort dirs),
             (reading_failed
                "TypeError: Cannot read properties of undefined (reading '0')").
           intros st. rewrite try_catch_run, bind_run. unfold settle at 1.
           rewrite bind_run, classify_pure, Hclass.
           rewrite bind_run, push_folders, push_files_without_workspace by exact Hroot.
           rewrite Hsorted. unfold console_error, modify, extend. simpl.
           rewrite !app_nil_r. reflexivity.
    + exists [], (reading_failed e).
      intros st. rewrite try_catch_run, bind_run. unfold settle at 1.
      rewrite bind_run, classify_pure, Hclass. apply console_error_run.
  - exists [], (reading_failed e). intros st.
    rewrite try_catch_run, bind_run. apply console_error_run.
Qed.

(** The children the lazy provider returns for the directory [dirPath]. *)
Definition entries (dirPath : string) : list CMVCExplorerItem :=
  match getFolderContents dirPath [] with
  | (Returned its, _) => its
  | _ => []
  end.

Lemma getFolderContents_entries (dirPath : string) (log : list (string * error)) :
  exists log', getFolderContents dirPath log = (Returned (entries dirPath), log').
Proof.
  destruct (getDirectoryContents_appends dirPath) as (its & errs & Hrun).
  unfold entries, getFolderContents, with_new_array.
  rewrite !Hrun. simpl. eexists. reflexivity.
Qed.

Lemma entries_readable (root dirPath : string) (names : list string) :
  workspaceFolders = Some root ->
  readdirSync dirPath = Ok names ->
  (forall n, n ∈ names -> exists b, statSync (join dirPath n) = Ok b) ->
  entries dirPath
    = (folder_of dirPath <$> sort (filter (kept_directory dirPath) names))
        ++ (file_of root dirPath <$> sort (filter (plain_file dirPath) names)).
Proof.
  intros Hroot Hread Hstat. unfold entries, getFolderContents, with_new_array.
  rewrite (getDirectoryContents_readable root dirPath names) by assumption.
  reflexivity.
Qed.

Lemma entries_unreadable (dirPath : string) (e : error) :
  readdirSync dirPath = Err e -> entries dirPath = [].
Proof.
  intros Hread. unfold entries, getFolderContents, with_new_array.
  rewrite (getDirectoryContents_unreadable _ e) by exact Hread. reflexivity.
Qed.

Lemma elem_of_sort (names : list string) (n : string) : n ∈ sort names <-> n ∈ names.
Proof. unfold sort. rewrite merge_sort_Permutation. reflexivity. Qed.


(** When [statSync] throws on an entry, the lazy listing of the directory is
    empty: its items are pushed after the loop that stats the entries. *)
Lemma classify_throws (dirPath : string) (before : list string) (file : string)
    (after_it : list string) (e : error) (dirs plain : list string) (st : Listing) :
  (forall n, n ∈ before -> exists b, statSync (join dirPath n) = Ok b) ->
  statSync (join dirPath file) = Err e ->
  classify dirPath (before ++ file :: after_it) dirs plain st = (Thrown e, st).
Proof.
  revert dirs plain. induction before as [| n before IH]; intros dirs plain Hstat Hfile.
  - simpl. rewrite bind_run. unfold settle. rewrite Hfile. reflexivity.
  - destruct (Hstat n) as [b Hb]; [left |].
    assert (forall m, m ∈ before -> exists b, statSync (join dirPath m) = Ok b) as Hrest.
    { intros m Hm. apply Hstat. right. exact Hm. }
    simpl. rewrite bind_run. unfold settle. rewrite Hb.
    destruct b; [destruct (shown_directory n) |]; apply IH; assumption.
Qed.

Lemma getFolderContents_failed_stat (dirPath : string) (before : list string)
    (file : string) (after_it : list string) (e : error) (log : list (string * error)) :
  readdirSync dirPath = Ok (before ++ file :: after_it) ->
  (forall n, n ∈ before -> exists b, statSync (join dirPath n) = Ok b) ->
  statSync (join dirPath file) = Err e ->
  getFolderContents dirPath log = (Returned [], log ++ reading_failed e).
Proof.
  intros Hread Hstat Hfile. unfold getFolderContents, with_new_array, getDirectoryContents.
  rewrite try_catch_run, bind_run. unfold settle at 1. rewrite Hread.
  rewrite bind_run, (classify_throws dirPath before file after_it e) by assumption.
  rewrite console_error_run. reflexivity.
Qed.

(** *** The eager listing *)

(** The body of the loop of [getFilesRecursively], at recursion depth
    [fuel]. *)
Definition visit (fuel : nat) (dirPath rootPath file : string) : M Listing unit :=
  let fullPath := join dirPath file in
  isDirectory ← settle (statSync fullPath);
  if (isDirectory : bool) then
    if shown_directory file then
      push (FolderItem file fullPath) ;;
      getFilesRecursively fuel fullPath rootPath
    else mret tt
  else
    push (FileItem file fullPath (relative rootPath fullPath)).

Lemma getFilesRecursively_step (fuel : nat) (dirPath rootPath : string) :
  getFilesRecursively (S fuel) dirPath rootPath
    = try_catch
        (files ← settle (readdirSync dirPath);
         for_of files (visit fuel dirPath rootPath))
        (fun error => console_error "Error reading directory:" error).
Proof. reflexivity. Qed.





Lemma for_of_invariant {A} (R : Listing -> Listing -> Prop)
    (body : A -> M Listing unit) (l : list A) :
  (forall st, R st st) ->
  (forall st1 st2 st3, R st1 st2 -> R st2 st3 -> R st1 st3) ->
  (forall x st, R st (snd (body x st))) ->
  forall st, R st (snd (for_of l body st)).
Proof.
  intros Hrefl Htrans Hbody. induction l as [| x l IH]; intros st.
  - apply Hrefl.
  - simpl. rewrite bind_run.
    pose proof (Hbody x st) as Hx.
    destruct (body x st) as [[[] | e |] st1]; simpl in *; try exact Hx.
    eapply Htrans; [exact Hx | apply IH].
Qed.





(** *** The eager list and the lazy tree *)

(** [descends p x]: the item [x] is a child of directory [p] in the lazy
    tree, or of a folder item found below [p]. *)
Inductive descends : string -> CMVCExplorerItem -> Prop :=
| descends_here p x :
    x ∈ entries p -> descends p x
| descends_below p label q x :
    FolderItem label q ∈ entries p -> descends q x -> descends p x.

Lemma descends_step (p label q : string) (x : CMVCExplorerItem) :
  descends p (FolderItem label q) -> x ∈ entries q -> descends p x.
Proof.
  intros Hfolder Hx. remember (FolderItem label q) as folder eqn:Hfolder_eq.
  induction Hfolder as [p folder Hin | p label' q' folder Hin Hbelow IH]; subst folder.
  - eapply descends_below; [exact Hin | apply descends_here, Hx].
  - eapply descends_below; [exact Hin | apply IH; reflexivity].
Qed.

Lemma children_of_folder (parent : CMVCExplorerItem) log children log'
    (x : CMVCExplorerItem) :
  getChildren (Some parent) log = (Returned children, log') ->
  x ∈ children ->
  exists label q, parent = FolderItem label q /\ x ∈ entries q.
Proof.
  intros Hrun Hx.
  destruct parent as [| | | | label q | |]; simpl in Hrun;
    try (injection Hrun as <- _; apply elem_of_nil in Hx; contradiction).
  exists label, q. split; [reflexivity |].
  destruct (getFolderContents_entries q log) as [log'' Hq].
  rewrite Hq in Hrun. injection Hrun as <- _. exact Hx.
Qed.

Lemma lazy_reachable_descends (root : string) (x : CMVCExplorerItem) :
  workspaceFolders = Some root ->
  lazy_reachable x -> descends root x.
Proof.
  intros Hroot Hreach.
  induction Hreach as [log children log' x Hrun Hx
                      | parent log children log' x Hparent IH Hrun Hx].
  - rewrite (getChildren_root root) in Hrun by exact Hroot.
    destruct (getFolderContents_entries root log) as [log'' Hq].
    rewrite Hq in Hrun. injection Hrun as <- _.
    apply descends_here, Hx.
  - destruct (children_of_folder _ _ _ _ _ Hrun Hx) as (label & q & -> & Hq).
    eapply descends_step; [exact IH | exact Hq].
Qed.

Lemma descends_lazy_reachable (p : string) (x : CMVCExplorerItem) :
  descends p x ->
  (forall y, y ∈ entries p -> lazy_reachable y) ->
  lazy_reachable x.
Proof.
  intros Hdesc. induction Hdesc as [p x Hin | p label q x Hin Hbelow IH];
    intros Hentries.
  - apply Hentries, Hin.
  - apply IH. intros y Hy.
    destruct (getFolderContents_entries q []) as [log' Hq].
    eapply reachable_child; [apply Hentries, Hin | exact Hq | exact Hy].
Qed.

Lemma entries_root_reachable (root : string) (y : CMVCExplorerItem) :
  workspaceFolders = Some root ->
  y ∈ entries root -> lazy_reachable y.
Proof.
  intros Hroot Hy.
  destruct (getFolderContents_entries root []) as [log' Hq].
  eapply reachable_root; [| exact Hy].
  rewrite (getChildren_root root) by exact Hroot. exact Hq.
Qed.

End ProviderFacts.

(** *** The eager list holds the nodes of the lazy tree

    Assumptions of this section: a workspace is open; every entry that
    [readdirSync] returns can be stat'ed; and the directories nest finitely,
    which a rank that decreases from a directory to the directories shown
    below it expresses. *)
Section EagerAndLazy.

Context {ws : Workspace}.
Variable root : string.
Variable rank : string -> nat.

Hypothesis workspace_open : workspaceFolders = Some root.

Hypothesis entries_have_stats :
  forall p names n,
    readdirSync p = Ok names -> n ∈ names -> exists b, statSync (join p n) = Ok b.

Hypothesis directories_nest :
  forall p names n,
    readdirSync p = Ok names -> n ∈ names ->
    statSync (join p n) = Ok true -> shown_directory n = true ->
    rank (join p n) < rank p.

Lemma entries_spec (p : string) (x : CMVCExplorerItem) :
  x ∈ entries p <->
  exists names n,
    readdirSync p = Ok names /\ n ∈ names
    /\ (kept_directory p n /\ x = folder_of p n
        \/ plain_file p n /\ x = file_of root p n).
Proof.
  destruct (readdirSync p) as [names | e] eqn:Hread.
  - rewrite (entries_readable root p names workspace_open Hread
               (fun n => entries_have_stats p names n Hread)).
    rewrite elem_of_app, !list_elem_of_fmap. split.
    + intros [(n & -> & Hn) | (n & -> & Hn)];
        rewrite elem_of_sort, list_elem_of_filter in Hn;
        exists names, n; tauto.
    + intros (names' & n & Hnames & Hn & Hcase).
      injection Hnames as <-.
      destruct Hcase as [[Hkept ->] | [Hplain ->]]; [left | right];
        exists n; rewrite elem_of_sort, list_elem_of_filter; tauto.
  - rewrite (entries_unreadable p e Hread). split.
    + intros H. apply elem_of_nil in H. contradiction.
    + intros (names & n & Hnames & _). discriminate.
Qed.

(** What the loop over [names] pushes, given what the recursive calls push. *)
Definition pushed_by (p : string) (names : list string) (x : CMVCExplorerItem) : Prop :=
  exists n, n ∈ names
    /\ (kept_directory p n /\ (x = folder_of p n \/ descends (join p n) x)
        \/ plain_file p n /\ x = file_of root p n).

Definition lists_descendants (fuel : nat) (p : string) : Prop :=
  exists its log,
    (forall st, getFilesRecursively fuel p root st = (Returned tt, extend st its log))
    /\ forall x, x ∈ its <-> descends p x.

Lemma visit_loop (fuel : nat) (p : string) (names : list string) :
  (forall q, rank q < fuel -> lists_descendants fuel q) ->
  (forall n, n ∈ names -> exists b, statSync (join p n) = Ok b) ->
  (forall n, n ∈ names -> kept_directory p n -> rank (join p n) < fuel) ->
  exists its log,
    (forall st, for_of names (visit fuel p root) st = (Returned tt, extend st its log))
    /\ forall x, x ∈ its <-> pushed_by p names x.
Proof.
  intros IHfuel. induction names as [| n names IH]; intros Hstat Hrank.
  - exists [], []. split.
    + intros st. simpl. rewrite extend_nothing. reflexivity.
    + intros x. split.
      * intros H. apply elem_of_nil in H. contradiction.
      * intros (n & Hn & _). apply elem_of_nil in Hn. contradiction.
  - destruct IH as (its & log & Hrun & Hits).
    { intros m Hm. apply Hstat. right. exact Hm. }
    { intros m Hm. apply Hrank. right. exact Hm. }
    destruct (Hstat n) as [b Hb]; [left |].
    destruct b; [destruct (shown_directory n) eqn:Hshown |].
    + (* a shown directory: pushed, then visited *)
      assert (kept_directory p n) as Hkept by (split; assumption).
      destruct (IHfuel (join p n)) as (sub & sublog & Hsub & Hsubits).
      { apply Hrank; [left | exact Hkept]. }
      exists (folder_of p n :: sub ++ its), (sublog ++ log). split.
      * intros st. simpl. rewrite bind_run. unfold visit at 1.
        rewrite bind_run. unfold settle. rewrite Hb, Hshown.
        rewrite bind_run, push_run, Hsub, Hrun, !extend_extend.
        reflexivity.
      * intros x. rewrite elem_of_cons, elem_of_app, Hsubits, Hits.
        unfold pushed_by. split.
        -- intros [-> | [Hdesc | (m & Hm & Hcase)]].
           ++ exists n. split; [left |]. left. tauto.
           ++ exists n. split; [left |]. left. tauto.
           ++ exists m. split; [right; exact Hm | exact Hcase].
        -- intros (m & Hm & Hcase). apply elem_of_cons in Hm as [-> | Hm].
           ++ destruct Hcase as [[_ [-> | Hdesc]] | [Hplain _]]; [tauto | tauto |].
              unfold plain_file in Hplain. congruence.
           ++ right. right. exists m. tauto.
    + (* a directory that is not shown: skipped *)
      exists its, log. split.
      * intros st. simpl. rewrite bind_run. unfold visit at 1.
        rewrite bind_run. unfold settle. rewrite Hb, Hshown. apply Hrun.
      * intros x. rewrite Hits. unfold pushed_by. split.
        -- intros (m & Hm & Hcase). exists m. split; [right; exact Hm | exact Hcase].
        -- intros (m & Hm & Hcase). apply elem_of_cons in Hm as [-> | Hm].
           ++ destruct Hcase as [[[_ Hk] _] | [Hplain _]]; [congruence |].
              unfold plain_file in Hplain. congruence.
           ++ exists m. tauto.
    + (* not a directory: pushed as a file *)
      exists (file_of root p n :: its), log. split.
      * intros st. simpl. rewrite bind_run. unfold visit at 1.
        rewrite bind_run. unfold settle. rewrite Hb.
        rewrite push_run, Hrun, extend_extend. reflexivity.
      * intros x. rewrite elem_of_cons, Hits. unfold pushed_by. split.
        -- intros [-> | (m & Hm & Hcase)].
           ++ exists n. split; [left |]. right. split; [exact Hb | reflexivity].
           ++ exists m. split; [right; exact Hm | exact Hcase].
        -- intros (m & Hm & Hcase). apply elem_of_cons in Hm as [-> | Hm].
           ++ destruct Hcase as [[[Hk _] _] | [_ ->]]; [congruence | left; reflexivity].
           ++ right. exists m. tauto.
Qed.

Lemma pushed_by_descends (p : string) (names : list string) (x : CMVCExplorerItem) :
  readdirSync p = Ok names ->
  pushed_by p names x <-> descends p x.
Proof.
  intros Hread. split.
  - intros (n & Hn & [[Hkept [-> | Hdesc]] | [Hplain ->]]).
    + apply descends_here, entries_spec. exists names, n. tauto.
    + eapply (descends_below p n).
      * apply entries_spec. exists names, n. tauto.
      * exact Hdesc.
    + apply descends_here, entries_spec. exists names, n. tauto.
  - intros Hdesc. inversion Hdesc as [p' x' Hin | p' label q x' Hin Hbelow]; subst.
    + apply entries_spec in Hin as (names' & n & Hnames & Hn & Hcase).
      assert (names' = names) as -> by congruence.
      exists n. split; [exact Hn |]. tauto.
    + apply entries_spec in Hin as (names' & n & Hnames & Hn & Hcase).
      assert (names' = names) as -> by congruence.
      destruct Hcase as [[Hkept Heq] | [_ Heq]]; [| discriminate].
      injection Heq as -> ->.
      exists n. split; [exact Hn |]. left. tauto.
Qed.

Lemma eager_lists_descendants (fuel : nat) (p : string) :
  rank p < fuel -> lists_descendants fuel p.
Proof.
  revert p. induction fuel as [| fuel IH]; intros p Hrank; [lia |].
  destruct (readdirSync p) as [names | e] eqn:Hread.
  - destruct (visit_loop fuel p names) as (its & log & Hrun & Hits).
    + intros q Hq. apply IH, Hq.
    + intros n Hn. exact (entries_have_stats p names n Hread Hn).
    + intros n Hn [Hdir Hshown].
      pose proof (directories_nest p names n Hread Hn Hdir Hshown). lia.
    + exists its, log. split.
      * intros st. rewrite getFilesRecursively_step, try_catch_run, bind_run.
        unfold settle at 1. rewrite Hread, Hrun. reflexivity.
      * intros x. rewrite Hits. apply pushed_by_descends, Hread.
  - exists [], (reading_failed e). split.
    + intros st. apply getFilesRecursively_unreadable, Hread.
    + intros x. split.
      * intros H. apply elem_of_nil in H. contradiction.
      * intros Hdesc.
        inversion Hdesc as [p' x' Hin | p' label q x' Hin Hbelow]; subst;
          rewrite (entries_unreadable p e Hread) in Hin;
          apply elem_of_nil in Hin; contradiction.
Qed.

(** C8, as the code has it.  In an open workspace whose directories nest
    finitely and whose entries can all be stat'ed, the eager provider, given
    fuel above the rank of the root, returns a list that holds exactly the
    items the lazy provider can be brought to return: the root listing, and
    the children of every folder item returned before. *)
Theorem eager_list_is_lazy_tree (fuel : nat) (log : list (string * error)) :
  rank root < fuel ->
  exists files log',
    getFiles fuel log = (Returned files, log')
    /\ forall x, x ∈ files <-> lazy_reachable x.
Proof.
  intros Hfuel.
  destruct (eager_lists_descendants fuel root Hfuel) as (its & errs & Hrun & Hits).
  exists its, (log ++ errs). split.
  - unfold getFiles. rewrite workspace_open. unfold with_new_array.
    rewrite Hrun. reflexivity.
  - intros x. rewrite Hits. split.
    + intros Hdesc. apply (descends_lazy_reachable root x Hdesc).
      intros y Hy. apply (entries_root_reachable root y workspace_open Hy).
    + apply lazy_reachable_descends, workspace_open.
Qed.

End EagerAndLazy.

(** * The properties on the sample inputs *)

(** ** Service *)

Lemma checkin_without_defect_is_refused :
  checkin quiet_shell "/ws/a.txt" world_no_defect
    = (Returned tt, after world_no_defect [ShowErrorMessage needs_all])
  /\ checkout quiet_shell "/ws/a.txt" world_no_defect
    = (Returned tt, after world_no_defect [ShowErrorMessage needs_all]).
Proof.
  apply (proj1 (unset_config_never_reaches_the_shell
                  quiet_shell open_any show_any "/ws/a.txt" world_no_defect)).
  right. right. reflexivity.
Defined.

Lemma quiet_shell_runs_the_example :
  checkin quiet_shell "/ws/a.txt" (mkWorld (mkConfig "F1" "R1" "D1") ∅ [])
    = (Returned tt,
       mkWorld (mkConfig "F1" "R1" "D1") ∅
         [ExecAsync
            ("File -checkin " +:+ dquote +:+ "/ws/a.txt" +:+ dquote
               +:+ " -defect " +:+ dquote +:+ "D1" +:+ dquote
               +:+ " -release " +:+ dquote +:+ "R1" +:+ dquote
               +:+ " -family " +:+ dquote +:+ "F1" +:+ dquote);
          ShowInformationMessage "Successfully checked in: a.txt"]).
Proof.
  apply (checkin_example quiet_shell "done" ∅ []). reflexivity.
Defined.

Lemma failing_shell_is_reported :
  checkin failing_shell "/ws/a.txt" world_F1
    = (Returned tt,
       after world_F1
         [ExecAsync (checkin_command "/ws/a.txt" (config world_F1));
          ShowErrorMessage "Checkin failed: File: not locked"]).
Proof.
  refine (proj1 (stderr_decides_the_report failing_shell open_any show_any
                   "/ws/a.txt" EmptyString "File: not locked" world_F1 _ _) _ _);
    try discriminate; reflexivity.
Defined.

Lemma config_item_is_ignored :
  cmvc_checkin quiet_shell (Some (ConfigItem "Family" "F1" "cmvc.setFamily")) world_F1
    = (Returned tt, world_F1)
  /\ cmvc_checkout quiet_shell (Some (ConfigItem "Family" "F1" "cmvc.setFamily")) world_F1
    = (Returned tt, world_F1)
  /\ cmvc_view quiet_shell open_any show_any
       (Some (ConfigItem "Family" "F1" "cmvc.setFamily")) world_F1
    = (Returned tt, world_F1).
Proof.
  apply (handlers_ignore_items_without_uri quiet_shell open_any show_any).
  right. eexists. split; reflexivity.
Defined.

Lemma create_at_unset_world :
  exists reports : list Effect,
    effects (snd (cmvc_create quiet_shell (fun _ _ => Some "comp")
                    (Some (FileItem "a.txt" "/ws/a.txt" "a.txt")) world_unset))
      = ShowInputBox "Enter Component" EmptyString ::
          ExecAsync
            ("File -create " +:+ dquote +:+ "/ws/a.txt" +:+ dquote
               +:+ " -component " +:+ dquote +:+ "comp" +:+ dquote
               +:+ " -defect " +:+ dquote +:+ dquote
               +:+ " -release " +:+ dquote +:+ dquote
               +:+ " -family " +:+ dquote +:+ dquote) :: reports.
Proof.
  refine (proj1 (create_runs_with_empty_config quiet_shell (fun _ _ => Some "comp")
                   (Some (FileItem "a.txt" "/ws/a.txt" "a.txt")) "/ws/a.txt"
                   world_unset _ _) "comp" _ _);
    try discriminate; reflexivity.
Defined.

(** ** Providers *)

Example project_root_listing :
  @getChildren project None []
    = (Returned
         [FolderItem "lib" "/ws/lib"; FolderItem "src" "/ws/src";
          FileItem ".env" "/ws/.env" ".env";
          FileItem "a.txt" "/ws/a.txt" "a.txt";
          FileItem "b.txt" "/ws/b.txt" "b.txt"], []).
Proof. reflexivity. Qed.

(** The eager provider keeps the order of [readdirSync] and puts the content
    of a folder right after the folder. *)
Example project_eager_listing :
  @getFiles project 2 []
    = (Returned
         [FolderItem "src" "/ws/src";
          FileItem "z.ts" "/ws/src/z.ts" "src/z.ts";
          FileItem "m.ts" "/ws/src/m.ts" "src/m.ts";
          FileItem "b.txt" "/ws/b.txt" "b.txt";
          FileItem ".env" "/ws/.env" ".env";
          FileItem "a.txt" "/ws/a.txt" "a.txt";
          FolderItem "lib" "/ws/lib"],
       reading_failed "EACCES: permission denied, scandir '/ws/lib'").
Proof. reflexivity. Qed.


Lemma project_stats (p : string) (names : list string) (n : string) :
  @readdirSync project p = Ok names -> n ∈ names ->
  exists b, @statSync project (@join project p n) = Ok b.
Proof. intros _ _. eexists. reflexivity. Qed.

Lemma project_nests (p : string) (names : list string) (n : string) :
  @readdirSync project p = Ok names -> n ∈ names ->
  @statSync project (@join project p n) = Ok true ->
  shown_directory n = true ->
  project_rank (@join project p n) < project_rank p.
Proof.
  simpl. unfold project_readdir. intros Hread Hn Hdir _.
  destruct (String.eqb_spec p "/ws") as [-> | Hp].
  - injection Hread as <-.
    repeat (apply elem_of_cons in Hn as [-> | Hn]; [vm_compute; lia || discriminate |]).
    apply elem_of_nil in Hn. contradiction.
  - destruct (String.eqb_spec p "/ws/src") as [-> | Hsrc].
    + injection Hread as <-.
      repeat (apply elem_of_cons in Hn as [-> | Hn]; [discriminate |]).
      apply elem_of_nil in Hn. contradiction.
    + destruct (String.eqb p "/ws/lib"); discriminate.
Qed.


Lemma unreadable_lib_is_empty :
  @getChildren project (Some (FolderItem "lib" "/ws/lib")) []
    = (Returned [],
       reading_failed "EACCES: permission denied, scandir '/ws/lib'").
Proof.
  apply (proj1 (@unreadable_directory_lists_nothing project "/ws/lib"
                  "EACCES: permission denied, scandir '/ws/lib'" eq_refl)
           "lib" []).
Defined.

Lemma project_lists_agree :
  exists files log',
    @getFiles project 2 [] = (Returned files, log')
    /\ forall x, x ∈ files <-> @lazy_reachable project x.
Proof.
  apply (@eager_list_is_lazy_tree project "/ws" project_rank eq_refl
           project_stats project_nests 2 []).
  vm_compute. lia.
Defined.

(** C8 as stated fails on the workspace with a dangling link: the eager
    provider has pushed [a.txt] when [statSync] throws on the next entry,
    while the lazy provider, which pushes after its loop, lists nothing. *)
Lemma eager_keeps_what_it_pushed_before_a_failed_stat :
  exists files log',
    @getFiles dangling 1 [] = (Returned files, log')
    /\ FileItem "a.txt" "/ws/a.txt" "a.txt" ∈ files
    /\ ~ @lazy_reachable dangling (FileItem "a.txt" "/ws/a.txt" "a.txt").
Proof.
  eexists. eexists. split; [reflexivity |]. split; [left |].
  assert (forall x, @lazy_reachable dangling x -> False) as Hnone.
  { intros x Hreach.
    induction Hreach as [log children log' x Hrun Hx
                        | parent log children log' x Hparent IH Hrun Hx];
      [| exact IH].
    rewrite (@getChildren_root dangling "/ws") in Hrun by reflexivity.
    destruct (@getFolderContents_entries dangling "/ws" log) as [log'' Hq].
    rewrite Hq in Hrun. injection Hrun as <- _.
    change (@entries dangling "/ws") with (@nil CMVCExplorerItem) in Hx.
    apply elem_of_nil in Hx. exact Hx. }
  intros Hreach. exact (Hnone _ Hreach).
Qed.

(** * The rest of the extension *)

(** ** The command runner on every path *)

(** The commands an operation passed to the shell, in order. *)
Fixpoint shell_calls (es : list Effect) : list string :=
  match es with
  | [] => []
  | ExecAsync command :: rest => command :: shell_calls rest
  | _ :: rest => shell_calls rest
  end.

Definition all_set (c : CMVCConfig) : bool :=
  negb (falsy (family c) || falsy (release c) || falsy (defect c)).

Definition two_set (c : CMVCConfig) : bool :=
  negb (falsy (family c) || falsy (release c)).

Section CommandRunner.

Variable execAsync : string -> result (string * string).
Variable openTextDocument : TextDocument -> result TextDocument.
Variable showTextDocument : TextDocument -> result unit.

Lemma checkin_rejected (filePath : string) (e : error) (w : World) :
  all_set (config w) = true ->
  execAsync (checkin_command filePath (config w)) = Err e ->
  checkin execAsync filePath w
    = (Returned tt,
       after w [ExecAsync (checkin_command filePath (config w));
                ShowErrorMessage ("Checkin failed: " +:+ e)]).
Proof.
  unfold all_set. rewrite negb_true_iff. intros Hset Hexec.
  unfold checkin. run_service. rewrite Hset, Hexec. simpl.
  unfold after. rewrite <- app_assoc. reflexivity.
Qed.

Lemma checkout_rejected (filePath : string) (e : error) (w : World) :
  all_set (config w) = true ->
  execAsync (checkout_command filePath (config w)) = Err e ->
  checkout execAsync filePath w
    = (Returned tt,
       after w [ExecAsync (checkout_command filePath (config w));
                ShowErrorMessage ("Checkout failed: " +:+ e)]).
Proof.
  unfold all_set. rewrite negb_true_iff. intros Hset Hexec.
  unfold checkout. run_service. rewrite Hset, Hexec. simpl.
  unfold after. rewrite <- app_assoc. reflexivity.
Qed.

Lemma view_rejected (filePath : string) (e : error) (w : World) :
  two_set (config w) = true ->
  execAsync (view_command filePath (config w)) = Err e ->
  view execAsync openTextDocument showTextDocument filePath w
    = (Returned tt,
       after w [ExecAsync (view_command filePath (config w));
                ShowErrorMessage ("View failed: " +:+ e)]).
Proof.
  unfold two_set. rewrite negb_true_iff. intros Hset Hexec.
  unfold view. run_service. rewrite Hset, Hexec. simpl.
  unfold after. rewrite <- app_assoc. reflexivity.
Qed.

(** X1.  When the promise of [execAsync] rejects (the command is not found,
    or it exits with a non-zero status), each of the three operations shows
    its failure message with the text of the error and returns normally,
    with the configuration and the store as they were. *)
Theorem rejected_process_is_reported (filePath : string) (e : error) (w : World) :
  let c := config w in
  two_set c = true ->
  (all_set c = true ->
   execAsync (checkin_command filePath c) = Err e ->
   checkin execAsync filePath w
     = (Returned tt,
        after w [ExecAsync (checkin_command filePath c);
                 ShowErrorMessage ("Checkin failed: " +:+ e)]))
  /\ (all_set c = true ->
      execAsync (checkout_command filePath c) = Err e ->
      checkout execAsync filePath w
        = (Returned tt,
           after w [ExecAsync (checkout_command filePath c);
                    ShowErrorMessage ("Checkout failed: " +:+ e)]))
  /\ (execAsync (view_command filePath c) = Err e ->
      view execAsync openTextDocument showTextDocument filePath w
        = (Returned tt,
           after w [ExecAsync (view_command filePath c);
                    ShowErrorMessage ("View failed: " +:+ e)])).
Proof.
  intros c Htwo. subst c. repeat split.
  - apply checkin_rejected.
  - apply checkout_rejected.
  - apply view_rejected, Htwo.
Qed.

Lemma shell_calls_view_shows (stdout : string) :
  shell_calls (view_shows openTextDocument showTextDocument stdout) = [].
Proof.
  unfold view_shows. simpl.
  destruct (openTextDocument _) as [document | e]; simpl; [| reflexivity].
  destruct (showTextDocument document) as [[] | e]; reflexivity.
Qed.

Lemma all_set_false (c : CMVCConfig) :
  all_set c = false ->
  falsy (family c) || falsy (release c) || falsy (defect c) = true.
Proof. unfold all_set. rewrite negb_false_iff. tauto. Qed.

Lemma all_set_true (c : CMVCConfig) :
  all_set c = true ->
  falsy (family c) || falsy (release c) || falsy (defect c) = false.
Proof. unfold all_set. rewrite negb_true_iff. tauto. Qed.

(** X2.  Whatever the shell and the host answer, [checkin], [checkout] and
    [view] return normally and change nothing but the trace; the shell is
    called once, with the operation's command, when the fields the operation
    needs are all non-empty, and not at all otherwise. *)
Theorem operations_call_the_shell_at_most_once (filePath : string) (w : World) :
  let c := config w in
  (exists es,
     checkin execAsync filePath w = (Returned tt, after w es)
     /\ shell_calls es
        = if all_set c then [checkin_command filePath c] else [])
  /\ (exists es,
        checkout execAsync filePath w = (Returned tt, after w es)
        /\ shell_calls es
           = if all_set c then [checkout_command filePath c] else [])
  /\ (exists es,
        view execAsync openTextDocument showTextDocument filePath w
          = (Returned tt, after w es)
        /\ shell_calls es
           = if two_set c then [view_command filePath c] else []).
Proof.
  intros c. subst c. repeat split.
  - destruct (all_set (config w)) eqn:Hset.
    + destruct (execAsync (checkin_command filePath (config w)))
        as [[stdout stderr] | e] eqn:Hexec.
      * eexists. split.
        -- apply (checkin_ran execAsync filePath stdout stderr w);
             [apply all_set_true, Hset | exact Hexec].
        -- destruct (truthy stderr); reflexivity.
      * eexists. split; [apply (checkin_rejected filePath e w Hset Hexec) |].
        reflexivity.
    + eexists. split; [apply checkin_unset, all_set_false, Hset | reflexivity].
  - destruct (all_set (config w)) eqn:Hset.
    + destruct (execAsync (checkout_command filePath (config w)))
        as [[stdout stderr] | e] eqn:Hexec.
      * eexists. split.
        -- apply (checkout_ran execAsync filePath stdout stderr w);
             [apply all_set_true, Hset | exact Hexec].
        -- destruct (truthy stderr); reflexivity.
      * eexists. split; [apply (checkout_rejected filePath e w Hset Hexec) |].
        reflexivity.
    + eexists. split; [apply checkout_unset, all_set_false, Hset | reflexivity].
  - destruct (two_set (config w)) eqn:Hset.
    + assert (falsy (family (config w)) || falsy (release (config w)) = false) as Hf.
      { unfold two_set in Hset. rewrite negb_true_iff in Hset. exact Hset. }
      destruct (execAsync (view_command filePath (config w)))
        as [[stdout stderr] | e] eqn:Hexec.
      * eexists. split.
        -- apply (view_ran execAsync openTextDocument showTextDocument
                    filePath stdout stderr w Hf Hexec).
        -- destruct (truthy stderr); [reflexivity |].
           cbn [shell_calls]. rewrite shell_calls_view_shows. reflexivity.
      * eexists. split; [apply (view_rejected filePath e w Hset Hexec) |].
        reflexivity.
    + eexists. split.
      * apply view_unset. unfold two_set in Hset.
        rewrite negb_false_iff in Hset. exact Hset.
      * reflexivity.
Qed.

(** X3.  When the shell has answered [view] with an empty [stderr] and the
    host then fails to open the document, or opens it and fails to show it,
    the failure is shown as a "View failed" message: it does not escape the
    operation. *)
Theorem view_reports_document_failures (filePath stdout : string) (e : error)
    (w : World) :
  let c := config w in
  let request := mkDocument stdout "text" in
  two_set c = true ->
  execAsync (view_command filePath c) = Ok (stdout, EmptyString) ->
  (openTextDocument request = Err e ->
   view execAsync openTextDocument showTextDocument filePath w
     = (Returned tt,
        after w [ExecAsync (view_command filePath c);
                 OpenTextDocument request;
                 ShowErrorMessage ("View failed: " +:+ e)]))
  /\ (forall document,
        openTextDocument request = Ok document ->
        showTextDocument document = Err e ->
        view execAsync openTextDocument showTextDocument filePath w
          = (Returned tt,
             after w [ExecAsync (view_command filePath c);
                      OpenTextDocument request;
                      ShowTextDocument document false;
                      ShowErrorMessage ("View failed: " +:+ e)])).
Proof.
  intros c request Hset Hexec. subst c request.
  assert (falsy (family (config w)) || falsy (release (config w)) = false) as Hf.
  { unfold two_set in Hset. rewrite negb_true_iff in Hset. exact Hset. }
  split.
  - intros Hopen.
    rewrite (view_ran execAsync openTextDocument showTextDocument
               filePath stdout EmptyString w Hf Hexec).
    simpl. unfold view_shows. rewrite Hopen. reflexivity.
  - intros document Hopen Hshow.
    rewrite (view_ran execAsync openTextDocument showTextDocument
               filePath stdout EmptyString w Hf Hexec).
    simpl. unfold view_shows. rewrite Hopen, Hshow. reflexivity.
Qed.

(** X4.  [view] asks for less than [checkin] and [checkout]: with a family
    and a release but no defect, [view] calls the shell while the two other
    operations are refused with the message that asks for all three
    values. *)
Theorem view_needs_no_defect (filePath : string) (w : World) :
  family (config w) <> EmptyString ->
  release (config w) <> EmptyString ->
  defect (config w) = EmptyString ->
  checkin execAsync filePath w
    = (Returned tt, after w [ShowErrorMessage needs_all])
  /\ checkout execAsync filePath w
    = (Returned tt, after w [ShowErrorMessage needs_all])
  /\ exists reports,
       view execAsync openTextDocument showTextDocument filePath w
         = (Returned tt,
            after w (ExecAsync (view_command filePath (config w)) :: reports)).
Proof.
  intros Hf Hr Hd.
  assert (falsy (family (config w)) || falsy (release (config w))
            || falsy (defect (config w)) = true) as Hunset.
  { rewrite Hd. simpl. apply orb_true_r. }
  split; [apply checkin_unset, Hunset |].
  split; [apply checkout_unset, Hunset |].
  assert (falsy (family (config w)) || falsy (release (config w)) = false) as Hset.
  { apply falsy_nonempty in Hf, Hr. rewrite Hf, Hr. reflexivity. }
  destruct (execAsync (view_command filePath (config w)))
    as [[stdout stderr] | e] eqn:Hexec.
  - eexists.
    apply (view_ran execAsync openTextDocument showTextDocument
             filePath stdout stderr w Hset Hexec).
  - eexists. apply (view_rejected filePath e w); [| exact Hexec].
    unfold two_set. rewrite Hset. reflexivity.
Qed.

End CommandRunner.

(** ** The configuration store, composed *)

Lemma world_eq (c : CMVCConfig) (m1 m2 : gmap string string) (es : list Effect) :
  (forall k, m1 !! k = m2 !! k) -> mkWorld c m1 es = mkWorld c m2 es.
Proof. intros H. f_equal. apply map_eq, H. Qed.

Ltac same_store :=
  apply world_eq; intros k; rewrite !lookup_insert;
  repeat case_decide; congruence.

(** X5.  Setters compose as assignments do.  Setting a field twice leaves
    the world that the second call alone gives, and setters of different
    fields commute: the configuration and the three stored values do not
    depend on the order of the calls. *)
Theorem setters_compose (a b : string) (w : World) :
  snd (setFamily b (snd (setFamily a w))) = snd (setFamily b w)
  /\ snd (setRelease b (snd (setRelease a w))) = snd (setRelease b w)
  /\ snd (setDefect b (snd (setDefect a w))) = snd (setDefect b w)
  /\ snd (setRelease b (snd (setFamily a w))) = snd (setFamily a (snd (setRelease b w)))
  /\ snd (setDefect b (snd (setFamily a w))) = snd (setFamily a (snd (setDefect b w)))
  /\ snd (setDefect b (snd (setRelease a w))) = snd (setRelease a (snd (setDefect b w))).
Proof.
  rewrite !setFamily_run, !setRelease_run, !setDefect_run. simpl.
  repeat split; same_store.
Qed.

Section FreshWorkspace.

Variable execAsync : string -> result (string * string).
Variable openTextDocument : TextDocument -> result TextDocument.
Variable showTextDocument : TextDocument -> result unit.

(** X6.  In a workspace whose store has no family or no release (nothing
    was saved yet), the service starts with that field empty, and each of
    the three operations is refused without a call to the shell. *)
Theorem nothing_saved_nothing_run (stored : gmap string string) (filePath : string) :
  stored !! "cmvc.family" = None \/ stored !! "cmvc.release" = None ->
  let w := reload stored in
  checkin execAsync filePath w
    = (Returned tt, after w [ShowErrorMessage needs_all])
  /\ checkout execAsync filePath w
    = (Returned tt, after w [ShowErrorMessage needs_all])
  /\ view execAsync openTextDocument showTextDocument filePath w
    = (Returned tt, after w [ShowErrorMessage needs_two]).
Proof.
  intros Hmissing w.
  assert (falsy (family (config w)) || falsy (release (config w)) = true) as Htwo.
  { subst w. rewrite reload_config. simpl.
    destruct Hmissing as [-> | ->]; simpl; rewrite ?orb_true_r; reflexivity. }
  assert (falsy (family (config w)) || falsy (release (config w))
            || falsy (defect (config w)) = true) as Hall.
  { rewrite Htwo. reflexivity. }
  split; [apply checkin_unset, Hall |].
  split; [apply checkout_unset, Hall | apply view_unset, Htwo].
Qed.

End FreshWorkspace.

(** ** What the views display, and the commands that set the values *)

(** The label of a tree item: the first argument each constructor passes to
    [super].  A [ConfigItem] shows ["Not set"] for a falsy value. *)
Definition treeLabel (item : CMVCExplorerItem) : string :=
  match item with
  | ConfigItem label value _ =>
      label +:+ ": " +:+ (if falsy value then "Not set" else value)
  | ConfigSectionItem label | FileExplorerItem label | FileItem label _ _
  | FolderItem label _ | TrackSectionItem label | TrackItem label => label
  end.

(** [vscode.TreeItemCollapsibleState], the second argument of [super]. *)
Inductive TreeItemCollapsibleState : Type := Leaf | Collapsed | Expanded.

Definition collapsibleState (item : CMVCExplorerItem) : TreeItemCollapsibleState :=
  match item with
  | ConfigSectionItem _ | FileExplorerItem _ | TrackSectionItem _ => Expanded
  | FolderItem _ _ => Collapsed
  | ConfigItem _ _ _ | FileItem _ _ _ | TrackItem _ => Leaf
  end.

(** [CMVCConfigProvider] ([extension.ts], lines 213-237). *)
Module CMVCConfigProvider.

Definition getChildren (element : option CMVCExplorerItem) :
    M World (list CMVCExplorerItem) :=
  match element with
  | None =>
      config ← getConfig;
      mret [ConfigItem "Family" (family config) "cmvc.setFamily";
            ConfigItem "Release" (release config) "cmvc.setRelease";
            ConfigItem "Defect" (defect config) "cmvc.setDefect"]
  | Some _ => mret []
  end.

End CMVCConfigProvider.

(** The service together with the change emitter of the configuration
    view: [configProviderFired] counts the calls of
    [_onDidChangeTreeData.fire()]. *)
Record Extension : Type := mkExtension {
  service : World;
  configProviderFired : nat
}.

Definition in_service {A} (c : M World A) : M Extension A := fun x =>
  let '(o, w) := c (service x) in (o, mkExtension w (configProviderFired x)).

(** [cmvcConfigProvider.refresh()] *)
Definition cmvcConfigProvider_refresh : M Extension unit :=
  modify (fun x => mkExtension (service x) (S (configProviderFired x))).

Section SetCommands.

Variable showInputBox : string -> string -> option string.

(** [await vscode.window.showInputBox({ prompt, value })] *)
Definition ask (prompt value : string) : M Extension (option string) :=
  in_service (emit (ShowInputBox prompt value)) ;;
  mret (showInputBox prompt value).

(** The handlers of [cmvc.setFamily], [cmvc.setRelease] and
    [cmvc.setDefect] ([extension.ts], lines 368-397). *)
Definition cmvc_setFamily : M Extension unit :=
  config ← in_service getConfig;
  value ← ask "Enter Family value" (family config);
  match value with
  | Some value => in_service (setFamily value) ;; cmvcConfigProvider_refresh
  | None => mret tt
  end.

Definition cmvc_setRelease : M Extension unit :=
  config ← in_service getConfig;
  value ← ask "Enter Release value" (release config);
  match value with
  | Some value => in_service (setRelease value) ;; cmvcConfigProvider_refresh
  | None => mret tt
  end.

Definition cmvc_setDefect : M Extension unit :=
  config ← in_service getConfig;
  value ← ask "Enter Defect value" (defect config);
  match value with
  | Some value => in_service (setDefect value) ;; cmvcConfigProvider_refresh
  | None => mret tt
  end.

End SetCommands.

(** What a configuration item shows for a value. *)
Definition displayed (value : string) : string :=
  if falsy value then "Not set" else value.

Definition config_labels (c : CMVCConfig) : list string :=
  ["Family: " +:+ displayed (family c);
   "Release: " +:+ displayed (release c);
   "Defect: " +:+ displayed (defect c)].

(** The labels of the configuration view, as the host would draw them. *)
Definition configuration_view (w : World) : list string :=
  match CMVCConfigProvider.getChildren None w with
  | (Returned children, _) => treeLabel <$> children
  | _ => []
  end.

Lemma configuration_view_labels (w : World) :
  configuration_view w = config_labels (config w).
Proof. reflexivity. Qed.

Section SetCommandFacts.

Variable showInputBox : string -> string -> option string.

(** X7.  A dismissed input box changes nothing: the handler of a
    set-command has only prompted, with the current value as the initial
    text; the configuration and the store are as before and the
    configuration view is not refreshed. *)
Theorem dismissed_prompt_changes_nothing (x : Extension) :
  let c := config (service x) in
  (showInputBox "Enter Family value" (family c) = None ->
   cmvc_setFamily showInputBox x
     = (Returned tt,
        mkExtension (after (service x) [ShowInputBox "Enter Family value" (family c)])
          (configProviderFired x)))
  /\ (showInputBox "Enter Release value" (release c) = None ->
      cmvc_setRelease showInputBox x
        = (Returned tt,
           mkExtension
             (after (service x) [ShowInputBox "Enter Release value" (release c)])
             (configProviderFired x)))
  /\ (showInputBox "Enter Defect value" (defect c) = None ->
      cmvc_setDefect showInputBox x
        = (Returned tt,
           mkExtension
             (after (service x) [ShowInputBox "Enter Defect value" (defect c)])
             (configProviderFired x))).
Proof.
  intros c. subst c. destruct x as [[[f r d] store trace] fired].
  repeat split; intros Hbox;
    unfold cmvc_setFamily, cmvc_setRelease, cmvc_setDefect, ask;
    rewrite !bind_run; simpl in *; rewrite Hbox; reflexivity.
Qed.

(** X8.  A typed value, the empty string included, is assigned, saved
    under the field's key, and the configuration view is refreshed once;
    drawn again, the view shows the typed value for that field (["Not set"]
    when it is empty) and the unchanged values of the two others. *)
Theorem typed_value_is_set_and_displayed (v : string) (x : Extension) :
  let c := config (service x) in
  (showInputBox "Enter Family value" (family c) = Some v ->
   exists x',
     cmvc_setFamily showInputBox x = (Returned tt, x')
     /\ configProviderFired x' = S (configProviderFired x)
     /\ storage (service x') !! "cmvc.family" = Some v
     /\ configuration_view (service x')
        = config_labels (mkConfig v (release c) (defect c)))
  /\ (showInputBox "Enter Release value" (release c) = Some v ->
      exists x',
        cmvc_setRelease showInputBox x = (Returned tt, x')
        /\ configProviderFired x' = S (configProviderFired x)
        /\ storage (service x') !! "cmvc.release" = Some v
        /\ configuration_view (service x')
           = config_labels (mkConfig (family c) v (defect c)))
  /\ (showInputBox "Enter Defect value" (defect c) = Some v ->
      exists x',
        cmvc_setDefect showInputBox x = (Returned tt, x')
        /\ configProviderFired x' = S (configProviderFired x)
        /\ storage (service x') !! "cmvc.defect" = Some v
        /\ configuration_view (service x')
           = config_labels (mkConfig (family c) (release c) v)).
Proof.
  intros c. subst c. destruct x as [[[f r d] store trace] fired].
  pose proof (saved_then_loaded v r d store) as (Hf & _ & _).
  pose proof (saved_then_loaded f v d store) as (_ & Hr & _).
  pose proof (saved_then_loaded f r v store) as (_ & _ & Hd).
  repeat split; intros Hbox;
    unfold cmvc_setFamily, cmvc_setRelease, cmvc_setDefect, ask;
    rewrite !bind_run; simpl in *; rewrite Hbox;
    eexists; (split; [reflexivity |]); simpl; auto.
Qed.

End SetCommandFacts.

(** ** [cmvc.create] *)

Section CreateFacts.

Variable execAsync : string -> result (string * string).

Lemma create_prompts_with_last_component
    (showInputBox : string -> string -> option string)
    (item : option CMVCExplorerItem) (fsPath : string) (w : World) :
  item ≫= resourceUri = Some fsPath ->
  exists w' rest,
    cmvc_create execAsync showInputBox item w = (Returned tt, w')
    /\ effects w'
       = effects w ++
           ShowInputBox "Enter Component"
             (default EmptyString (storage w !! "cmvc.lastComponent")) :: rest.
Proof.
  intros Huri.
  destruct (showInputBox "Enter Component"
              (default EmptyString (storage w !! "cmvc.lastComponent")))
    as [component |] eqn:Hbox.
  - destruct component as [| ch component].
    + eexists. eexists. split.
      * apply (create_without_component execAsync showInputBox item fsPath w Huri).
        right. exact Hbox.
      * reflexivity.
    + eexists. eexists. split.
      * apply (create_ran execAsync showInputBox item fsPath _ w Huri Hbox).
        discriminate.
      * reflexivity.
  - eexists. eexists. split.
    + apply (create_without_component execAsync showInputBox item fsPath w Huri).
      left. exact Hbox.
    + reflexivity.
Qed.

(** X9.  [cmvc.create] remembers the component.  After a run in which a
    non-empty component was typed, the store holds it under
    [cmvc.lastComponent] and no other key has changed, the configuration is
    the same, and the next run on any selected file opens its prompt with
    that component as the initial text, whatever the shell answered. *)
Theorem create_remembers_the_component
    (showInputBox : string -> string -> option string)
    (item : option CMVCExplorerItem) (fsPath component : string) (w : World) :
  item ≫= resourceUri = Some fsPath ->
  showInputBox "Enter Component"
    (default EmptyString (storage w !! "cmvc.lastComponent")) = Some component ->
  component <> EmptyString ->
  let w1 := snd (cmvc_create execAsync showInputBox item w) in
  storage w1 !! "cmvc.lastComponent" = Some component
  /\ (forall key, key <> "cmvc.lastComponent" -> storage w1 !! key = storage w !! key)
  /\ config w1 = config w
  /\ forall showInputBox' item' fsPath',
       item' ≫= resourceUri = Some fsPath' ->
       exists w2 rest,
         cmvc_create execAsync showInputBox' item' w1 = (Returned tt, w2)
         /\ effects w2
            = effects w1 ++ ShowInputBox "Enter Component" component :: rest.
Proof.
  intros Huri Hbox Hne w1. subst w1.
  rewrite (create_ran execAsync showInputBox item fsPath component w Huri Hbox Hne).
  cbn [snd storage config].
  assert (<["cmvc.lastComponent" := component]> (storage w) !! "cmvc.lastComponent"
            = Some component) as Hlast by apply lookup_insert_eq.
  split; [exact Hlast |].
  split; [intros key Hkey; apply lookup_insert_ne; congruence |].
  split; [reflexivity |].
  intros showInputBox' item' fsPath' Huri'.
  match goal with
  | |- context [cmvc_create _ _ _ ?w1] =>
      destruct (create_prompts_with_last_component showInputBox' item' fsPath' w1 Huri')
        as (w2 & rest & Hrun & Heffects)
  end.
  exists w2, rest. split; [exact Hrun |].
  rewrite Heffects. cbn [storage]. rewrite Hlast. reflexivity.
Qed.

(** X10.  For a selected file, [cmvc.create] refreshes the files view
    exactly when a non-empty component was typed and the process resolved
    with an empty [stderr]; a dismissed prompt, a rejected process or any
    text on [stderr] leaves the view as it is. *)
Theorem create_refreshes_on_success_only
    (showInputBox : string -> string -> option string)
    (item : option CMVCExplorerItem) (fsPath : string) (w : World) :
  item ≫= resourceUri = Some fsPath ->
  exists w' es,
    cmvc_create execAsync showInputBox item w = (Returned tt, w')
    /\ effects w' = effects w ++ es
    /\ (FilesProviderRefresh ∈ es <->
        exists component stdout,
          showInputBox "Enter Component"
            (default EmptyString (storage w !! "cmvc.lastComponent"))
            = Some component
          /\ component <> EmptyString
          /\ execAsync (create_command fsPath component (config w))
             = Ok (stdout, EmptyString)).
Proof.
  intros Huri.
  destruct (showInputBox "Enter Component"
              (default EmptyString (storage w !! "cmvc.lastComponent")))
    as [component |] eqn:Hbox.
  - destruct (decide (component = EmptyString)) as [-> | Hne].
    + eexists. eexists. split.
      { apply (create_without_component execAsync showInputBox item fsPath w Huri).
        right. exact Hbox. }
      split; [reflexivity |]. split.
      * intros Hin.
        repeat (apply elem_of_cons in Hin as [Hin | Hin]; [discriminate |]).
        apply elem_of_nil in Hin. contradiction.
      * intros (c & stdout & Hc & Hnonempty & _). congruence.
    + eexists. eexists. split.
      { apply (create_ran execAsync showInputBox item fsPath component w Huri Hbox Hne). }
      split; [reflexivity |]. unfold create_reports. split.
      * intros Hin.
        apply elem_of_cons in Hin as [Hin | Hin]; [discriminate |].
        apply elem_of_cons in Hin as [Hin | Hin]; [discriminate |].
        destruct (execAsync (create_command fsPath component (config w)))
          as [[stdout stderr] | e] eqn:Hexec.
        -- destruct stderr as [| ch stderr].
           ++ exists component, stdout. repeat split; auto.
           ++ apply list_elem_of_singleton in Hin. discriminate.
        -- apply list_elem_of_singleton in Hin. discriminate.
      * intros (c & stdout & Hc & _ & Hexec).
        injection Hc as <-. rewrite Hexec. simpl.
        do 3 right. left.
  - eexists. eexists. split.
    { apply (create_without_component execAsync showInputBox item fsPath w Huri).
      left. exact Hbox. }
    split; [reflexivity |]. split.
    + intros Hin.
      repeat (apply elem_of_cons in Hin as [Hin | Hin]; [discriminate |]).
      apply elem_of_nil in Hin. contradiction.
    + intros (c & stdout & Hc & _). discriminate.
Qed.

End CreateFacts.

(** ** The command strings *)

(** [quote_free s]: the character [U+0022] does not occur in [s]. *)
Fixpoint quote_free (s : string) : bool :=
  match s with
  | EmptyString => true
  | String c rest => negb (Ascii.eqb c "034"%char) && quote_free rest
  end.

Lemma append_nil_r (s : string) : s +:+ EmptyString = s.
Proof.
  induction s as [| c s IH]; [reflexivity |].
  change (String c (s +:+ EmptyString) = String c s). f_equal. exact IH.
Qed.

Lemma append_cons (c : ascii) (s t : string) : String c s +:+ t = String c (s +:+ t).
Proof. reflexivity. Qed.

(** Two strings that agree up to and including their first quote. *)
Lemma split_at_quote (s s' t t' : string) :
  quote_free s = true -> quote_free s' = true ->
  s +:+ dquote +:+ t = s' +:+ dquote +:+ t' ->
  s = s' /\ t = t'.
Proof.
  revert s'. induction s as [| c s IH]; intros [| c' s'] Hs Hs' Heq.
  - injection Heq as Heq. split; [reflexivity | exact Heq].
  - rewrite append_cons in Heq. injection Heq as <- _.
    simpl in Hs'. discriminate.
  - rewrite append_cons in Heq. injection Heq as -> _.
    simpl in Hs. discriminate.
  - rewrite !append_cons in Heq. injection Heq as <- Heq.
    simpl in Hs, Hs'. apply andb_true_iff in Hs as [_ Hs].
    apply andb_true_iff in Hs' as [_ Hs'].
    destruct (IH s' Hs Hs' Heq) as [-> ->]. split; reflexivity.
Qed.

Lemma quoted_argument (s s' rest rest' : string) :
  quote_free s = true -> quote_free s' = true ->
  quoted s +:+ rest = quoted s' +:+ rest' ->
  s = s' /\ rest = rest'.
Proof.
  intros Hs Hs' Heq. rewrite !quoted_then in Heq.
  injection Heq as Heq. exact (split_at_quote s s' rest rest' Hs Hs' Heq).
Qed.

Lemma last_quoted_argument (s s' : string) :
  quote_free s = true -> quote_free s' = true ->
  quoted s = quoted s' -> s = s'.
Proof.
  intros Hs Hs' Heq.
  rewrite <- (append_nil_r (quoted s)), <- (append_nil_r (quoted s')) in Heq.
  exact (proj1 (quoted_argument s s' EmptyString EmptyString Hs Hs' Heq)).
Qed.

Definition config_quote_free (c : CMVCConfig) : bool :=
  quote_free (family c) && quote_free (release c) && quote_free (defect c).

Lemma append_inj_l (a x y : string) : a +:+ x = a +:+ y -> x = y.
Proof.
  induction a as [| c a IH]; intros H; [exact H |].
  rewrite !append_cons in H. injection H as H. exact (IH H).
Qed.

(** X11.  The interpolation loses nothing when no value holds a double
    quote: the command string of [checkin], of [checkout] and of [view]
    determines the file path and the configuration values it was built
    from. *)
Theorem quote_free_commands_are_unambiguous (p p' : string) (c c' : CMVCConfig) :
  quote_free p = true -> quote_free p' = true ->
  config_quote_free c = true -> config_quote_free c' = true ->
  (checkin_command p c = checkin_command p' c' -> p = p' /\ c = c')
  /\ (checkout_command p c = checkout_command p' c' -> p = p' /\ c = c')
  /\ (view_command p c = view_command p' c' ->
      p = p' /\ family c = family c' /\ release c = release c').
Proof.
  intros Hp Hp' Hc Hc'. unfold config_quote_free in *.
  apply andb_true_iff in Hc as [Hc Hd]. apply andb_true_iff in Hc as [Hf Hr].
  apply andb_true_iff in Hc' as [Hc' Hd']. apply andb_true_iff in Hc' as [Hf' Hr'].
  destruct c as [f r d], c' as [f' r' d']. simpl in *.
  split; [| split].
  - unfold checkin_command. simpl. intros H.
    apply append_inj_l, quoted_argument in H as [-> H]; auto.
    apply append_inj_l, quoted_argument in H as [-> H]; auto.
    apply append_inj_l, quoted_argument in H as [-> H]; auto.
    apply append_inj_l, last_quoted_argument in H as ->; auto.
  - unfold checkout_command. simpl. intros H.
    apply append_inj_l, quoted_argument in H as [-> H]; auto.
    apply append_inj_l, quoted_argument in H as [-> H]; auto.
    apply append_inj_l, quoted_argument in H as [-> H]; auto.
    apply append_inj_l, last_quoted_argument in H as ->; auto.
  - unfold view_command. simpl. intros H.
    apply append_inj_l, quoted_argument in H as [-> H]; auto.
    apply append_inj_l, quoted_argument in H as [-> H]; auto.
    apply append_inj_l, last_quoted_argument in H as ->; auto.
Qed.

(** X12.  Nothing escapes a double quote.  A file path that holds quoted
    text yields the command of another request: the path
    [p" -defect "d1] checked in for the defect [d2] gives, character for
    character, the command of the path [p] checked in for the defect
    [d1" -defect "d2]; the same holds for [checkout]. *)
Theorem quotes_are_not_escaped (p d1 d2 f r : string) :
  let inserted := dquote +:+ " -defect " +:+ dquote in
  p +:+ inserted +:+ d1 <> p
  /\ checkin_command (p +:+ inserted +:+ d1) (mkConfig f r d2)
     = checkin_command p (mkConfig f r (d1 +:+ inserted +:+ d2))
  /\ checkout_command (p +:+ inserted +:+ d1) (mkConfig f r d2)
     = checkout_command p (mkConfig f r (d1 +:+ inserted +:+ d2)).
Proof.
  intros inserted. split; [| split].
  - intros H.
    assert (p +:+ inserted +:+ d1 = p +:+ EmptyString) as H'
      by (rewrite append_nil_r; exact H).
    apply append_inj_l in H'. discriminate.
  - subst inserted. unfold checkin_command, quoted. cbn [defect release family].
    rewrite !append_assoc. reflexivity.
  - subst inserted. unfold checkout_command, quoted. cbn [defect release family].
    rewrite !append_assoc. reflexivity.
Qed.

(** ** The name in the success message *)

Definition sep_free (s : string) : bool :=
  forallb (fun c => negb (is_sep c)) (list_ascii_of_string s).

Lemma list_ascii_of_append (a b : string) :
  list_ascii_of_string (a +:+ b) = list_ascii_of_string a ++ list_ascii_of_string b.
Proof.
  induction a as [| c a IH]; [reflexivity |].
  rewrite append_cons. simpl. f_equal. exact IH.
Qed.

Lemma until_sep_stops (l m : list ascii) :
  forallb (fun c => negb (is_sep c)) l = true ->
  until_sep (l ++ "/"%char :: m) = l.
Proof.
  induction l as [| c l IH]; intros Hfree; [reflexivity |].
  simpl in *. apply andb_true_iff in Hfree as [Hc Hl].
  apply negb_true_iff in Hc. rewrite Hc. f_equal. exact (IH Hl).
Qed.

Lemma skip_seps_none (c : ascii) (l : list ascii) :
  is_sep c = false -> skip_seps (c :: l) = c :: l.
Proof. intros Hc. simpl. rewrite Hc. reflexivity. Qed.

Lemma basename_of_entry (dir name : string) :
  name <> EmptyString -> sep_free name = true ->
  basename (dir +:+ "/" +:+ name) = name.
Proof.
  intros Hne Hfree. unfold basename, sep_free in *.
  rewrite !list_ascii_of_append. change (list_ascii_of_string "/") with ["/"%char].
  rewrite rev_app_distr, rev_app_distr. simpl.
  assert (forallb (fun c => negb (is_sep c)) (rev (list_ascii_of_string name)) = true)
    as Hrev.
  { apply forallb_forall. intros c Hc. apply in_rev in Hc.
    exact (proj1 (forallb_forall _ _) Hfree c Hc). }
  destruct (rev (list_ascii_of_string name)) as [| c l] eqn:Hl.
  - destruct name; [congruence |].
    apply (f_equal (@rev ascii)) in Hl. rewrite rev_involutive in Hl. discriminate.
  - assert (is_sep c = false) as Hc.
    { simpl in Hrev. apply andb_true_iff in Hrev as [Hc _].
      apply negb_true_iff in Hc. exact Hc. }
    rewrite <- !app_assoc. cbn [app].
    rewrite skip_seps_none by exact Hc.
    pose proof (until_sep_stops (c :: l) (rev (list_ascii_of_string dir)) Hrev)
      as Hstop.
    cbn [app] in Hstop. rewrite Hstop.
    rewrite <- Hl, rev_involutive. apply string_of_list_ascii_of_string.
Qed.

Section SuccessMessage.

Variable execAsync : string -> result (string * string).

(** X13.  For a path made of a directory, a separator and a name (a name
    that is not empty and holds no separator), a successful [checkin] or
    [checkout] names the file by that name alone, whatever the directory. *)
Theorem success_message_names_the_entry (dir name stdout : string) (w : World) :
  let filePath := dir +:+ "/" +:+ name in
  name <> EmptyString -> sep_free name = true ->
  all_set (config w) = true ->
  (execAsync (checkin_command filePath (config w)) = Ok (stdout, EmptyString) ->
   checkin execAsync filePath w
     = (Returned tt,
        after w [ExecAsync (checkin_command filePath (config w));
                 ShowInformationMessage ("Successfully checked in: " +:+ name)]))
  /\ (execAsync (checkout_command filePath (config w)) = Ok (stdout, EmptyString) ->
      checkout execAsync filePath w
        = (Returned tt,
           after w [ExecAsync (checkout_command filePath (config w));
                    ShowInformationMessage ("Successfully checked out: " +:+ name)])).
Proof.
  intros filePath Hne Hfree Hset. subst filePath.
  apply all_set_true in Hset. split; intros Hexec.
  - rewrite (checkin_ran execAsync _ stdout EmptyString w Hset Hexec).
    rewrite (basename_of_entry dir name Hne Hfree). reflexivity.
  - rewrite (checkout_ran execAsync _ stdout EmptyString w Hset Hexec).
    rewrite (basename_of_entry dir name Hne Hfree). reflexivity.
Qed.

End SuccessMessage.

(** ** The providers on every file system *)

Section ProvidersAlways.

Context {ws : Workspace}.

#[local] Existing Instance kept_directory_dec.
#[local] Existing Instance plain_file_dec.

(** [x] is the folder item of a shown sub-directory of [p], or the file
    item of an entry of [p] that is not a directory. *)
Definition folder_child (p : string) (x : CMVCExplorerItem) : Prop :=
  exists n, x = FolderItem n (join p n)
    /\ statSync (join p n) = Ok true /\ shown_directory n = true.

Definition file_child (rootPath p : string) (x : CMVCExplorerItem) : Prop :=
  exists n, x = FileItem n (join p n) (relative rootPath (join p n))
    /\ statSync (join p n) = Ok false.

Lemma classify_returned (p : string) (files dirs plain dirs' plain' : list string)
    (st st' : Listing) :
  classify p files dirs plain st = (Returned (dirs', plain'), st') ->
  forall n, n ∈ files -> exists b, statSync (join p n) = Ok b.
Proof.
  revert dirs plain. induction files as [| f files IH]; intros dirs plain Hrun n Hn.
  - apply elem_of_nil in Hn. contradiction.
  - simpl in Hrun. rewrite bind_run in Hrun. unfold settle in Hrun.
    destruct (statSync (join p f)) as [b |] eqn:Hb; [| discriminate].
    apply elem_of_cons in Hn as [-> | Hn]; [exists b; exact Hb |].
    destruct b; [destruct (shown_directory f) |]; exact (IH _ _ Hrun n Hn).
Qed.

Lemma folder_items_are_children (p : string) (names : list string)
    (x : CMVCExplorerItem) :
  x ∈ folder_of p <$> sort (filter (kept_directory p) names) -> folder_child p x.
Proof.
  intros Hx. apply list_elem_of_fmap in Hx as (n & -> & Hn).
  apply elem_of_sort, list_elem_of_filter in Hn as [[Hdir Hshown] _].
  exists n. auto.
Qed.

Lemma file_items_are_children (root p : string) (names : list string)
    (x : CMVCExplorerItem) :
  x ∈ file_of root p <$> sort (filter (plain_file p) names) -> file_child root p x.
Proof.
  intros Hx. apply list_elem_of_fmap in Hx as (n & -> & Hn).
  apply elem_of_sort, list_elem_of_filter in Hn as [Hplain _].
  exists n. auto.
Qed.

(** The items a listing of [p] may push. *)
Definition lazy_child (p : string) (x : CMVCExplorerItem) : Prop :=
  folder_child p x
  \/ exists root, workspaceFolders = Some root /\ file_child root p x.

Lemma getDirectoryContents_children (p : string) :
  exists its log,
    (forall st, getDirectoryContents p st = (Returned tt, extend st its log))
    /\ forall x, x ∈ its -> lazy_child p x.
Proof.
  unfold getDirectoryContents.
  destruct (readdirSync p) as [names | e] eqn:Hread.
  - pose proof (classify_never_starves p names [] [] (mkListing [] [])) as Hnot.
    destruct (classify p names [] [] (mkListing [] []))
      as [[[dirs plain] | e |] st'] eqn:Hclass; simpl in Hnot; [| | congruence].
    + pose proof (classify_returned _ _ _ _ _ _ _ _ Hclass) as Hstat.
      rewrite (classify_all_stated p names [] [] _ Hstat) in Hclass.
      injection Hclass as <- <- _. cbn [app].
      destruct workspaceFolders as [root |] eqn:Hroot.
      * eexists. exists []. split.
        -- intros st. rewrite try_catch_run, bind_run. unfold settle at 1.
           rewrite bind_run, (classify_all_stated p names [] [] st Hstat).
           cbn [app]. rewrite bind_run, push_folders.
           rewrite (push_files root) by exact Hroot.
           rewrite extend_extend. reflexivity.
        -- intros x Hx. apply elem_of_app in Hx as [Hx | Hx].
           ++ left. exact (folder_items_are_children p names x Hx).
           ++ right. exists root. split; [exact Hroot |].
              exact (file_items_are_children root p names x Hx).
      * destruct (sort (filter (plain_file p) names)) as [| f rest] eqn:Hsorted.
        -- eexists. exists []. split.
           ++ intros st. rewrite try_catch_run, bind_run. unfold settle at 1.
              rewrite bind_run, (classify_all_stated p names [] [] st Hstat).
              cbn [app].
              rewrite bind_run, push_folders, push_files_without_workspace
                by exact Hroot.
              rewrite Hsorted. reflexivity.
           ++ intros x Hx. left. exact (folder_items_are_children p names x Hx).
        -- eexists. eexists. split.
           ++ intros st. rewrite try_catch_run, bind_run. unfold settle at 1.
              rewrite bind_run, (classify_all_stated p names [] [] st Hstat).
              cbn [app].
              rewrite bind_run, push_folders, push_files_without_workspace
                by exact Hroot.
              rewrite Hsorted, console_error_run, extend_extend. reflexivity.
           ++ intros x Hx. rewrite app_nil_r in Hx. left.
              exact (folder_items_are_children p names x Hx).
    + exists [], (reading_failed e). split.
      * intros st. rewrite try_catch_run, bind_run. unfold settle at 1.
        rewrite bind_run, classify_pure, Hclass. apply console_error_run.
      * intros x Hx. apply elem_of_nil in Hx. contradiction.
  - exists [], (reading_failed e). split.
    + intros st. rewrite try_catch_run, bind_run. apply console_error_run.
    + intros x Hx. apply elem_of_nil in Hx. contradiction.
Qed.

Lemma getFolderContents_children (p : string) (log : list (string * error)) :
  exists children more,
    getFolderContents p log = (Returned children, log ++ more)
    /\ forall x, x ∈ children -> lazy_child p x.
Proof.
  destruct (getDirectoryContents_children p) as (its & more & Hrun & Hshape).
  exists its, more. split; [| exact Hshape].
  unfold getFolderContents, with_new_array. rewrite Hrun. reflexivity.
Qed.

(** The directory a request for children lists, if any. *)
Definition listed_directory (element : option CMVCExplorerItem) : option string :=
  match element with
  | None => workspaceFolders
  | Some (FolderItem _ fsPath) => Some fsPath
  | Some _ => None
  end.

(** X14.  The lazy provider answers every request, whatever the file system
    does: [getChildren] returns for every element, it only appends to the
    console, and each child is either the folder item of a sub-directory
    with a shown name or the file item of an entry that is not a directory;
    the child's path is the listed directory joined with its label.  A
    request that lists no directory (a file item, or no workspace) gets
    the empty list and logs nothing. *)
Theorem lazy_provider_always_answers (element : option CMVCExplorerItem)
    (log : list (string * error)) :
  exists children more,
    getChildren element log = (Returned children, log ++ more)
    /\ match listed_directory element with
       | Some p => forall x, x ∈ children -> lazy_child p x
       | None => children = [] /\ more = []
       end.
Proof.
  destruct element as [[| | | | label q | |] |]; simpl;
    try (exists [], []; rewrite app_nil_r; repeat split; reflexivity).
  - apply getFolderContents_children.
  - unfold getWorkspaceFiles.
    destruct workspaceFolders as [root |] eqn:Hroot.
    + destruct (getDirectoryContents_children root) as (its & more & Hrun & Hshape).
      exists its, more. split; [| exact Hshape].
      unfold with_new_array. rewrite Hrun. reflexivity.
    + exists [], []. rewrite app_nil_r. repeat split; reflexivity.
Qed.

(** X15.  At every depth of the lazy tree, an item is a child of the
    workspace root or of a folder item that is itself in the tree: no
    directory named [node_modules] or [.git] or starting with a dot is ever
    shown, and nothing below such a directory is. *)
Theorem lazy_tree_shows_no_hidden_directory (x : CMVCExplorerItem) :
  lazy_reachable x ->
  exists p,
    lazy_child p x
    /\ (workspaceFolders = Some p \/ exists label, lazy_reachable (FolderItem label p)).
Proof.
  intros Hreach.
  destruct Hreach as [log children log' x Hrun Hx
                     | parent log children log' x Hparent Hrun Hx].
  - destruct workspaceFolders as [root |] eqn:Hroot.
    + rewrite (getChildren_root root) in Hrun by exact Hroot.
      destruct (getFolderContents_children root log)
        as (children' & more & Hrun' & Hshape).
      rewrite Hrun in Hrun'. injection Hrun' as <- _.
      exists root. split; [apply Hshape, Hx | left; reflexivity].
    + simpl in Hrun. unfold getWorkspaceFiles in Hrun. rewrite Hroot in Hrun.
      injection Hrun as <- _. apply elem_of_nil in Hx. contradiction.
  - destruct parent as [| | | | label q | |]; simpl in Hrun;
      try (injection Hrun as <- _; apply elem_of_nil in Hx; contradiction).
    destruct (getFolderContents_children q log)
      as (children' & more & Hrun' & Hshape).
    rewrite Hrun in Hrun'. injection Hrun' as <- _.
    exists q. split; [apply Hshape, Hx | right; exists label; exact Hparent].
Qed.

End ProvidersAlways.

Section EagerAlways.

Context {ws : Workspace}.

(** The items the eager provider may push, below any directory. *)
Definition eager_child (rootPath : string) (x : CMVCExplorerItem) : Prop :=
  exists p, folder_child p x \/ file_child rootPath p x.

(** [st'] is [st] with items of the eager provider appended, and possibly
    errors logged. *)
Definition grown (rootPath : string) (st st' : Listing) : Prop :=
  exists its log,
    st' = extend st its log /\ forall x, x ∈ its -> eager_child rootPath x.

Lemma grown_refl (rootPath : string) (st : Listing) : grown rootPath st st.
Proof.
  exists [], []. split; [symmetry; apply extend_nothing |].
  intros x Hx. apply elem_of_nil in Hx. contradiction.
Qed.

Lemma grown_trans (rootPath : string) (st1 st2 st3 : Listing) :
  grown rootPath st1 st2 -> grown rootPath st2 st3 -> grown rootPath st1 st3.
Proof.
  intros (its & log & -> & H12) (its' & log' & -> & H23).
  exists (its ++ its'), (log ++ log'). split; [apply extend_extend |].
  intros x Hx. apply elem_of_app in Hx as [Hx | Hx]; auto.
Qed.

Lemma grown_push (rootPath : string) (st : Listing) (x : CMVCExplorerItem) :
  eager_child rootPath x -> grown rootPath st (extend st [x] []).
Proof.
  intros Hx. exists [x], []. split; [reflexivity |].
  intros y Hy. apply list_elem_of_singleton in Hy as ->. exact Hx.
Qed.

Lemma grown_log (rootPath : string) (st : Listing) (log : list (string * error)) :
  grown rootPath st (extend st [] log).
Proof.
  exists [], log. split; [reflexivity |].
  intros x Hx. apply elem_of_nil in Hx. contradiction.
Qed.

Lemma getFilesRecursively_grows (fuel : nat) (dirPath rootPath : string)
    (st : Listing) :
  grown rootPath st (snd (getFilesRecursively fuel dirPath rootPath st)).
Proof.
  revert dirPath st. induction fuel as [| fuel IH]; intros dirPath st.
  - apply grown_refl.
  - rewrite getFilesRecursively_step, try_catch_run, bind_run. unfold settle at 1.
    destruct (readdirSync dirPath) as [names | e]; cbn iota beta.
    + assert (forall file st0,
        grown rootPath st0 (snd (visit fuel dirPath rootPath file st0))) as Hvisit.
      { intros file st0. unfold visit. rewrite bind_run. unfold settle.
        destruct (statSync (join dirPath file)) as [[] | e] eqn:Hstat;
          cbn iota beta; [| | apply grown_refl].
        - destruct (shown_directory file) eqn:Hshown; [| apply grown_refl].
          rewrite bind_run, push_run.
          eapply grown_trans; [| apply IH].
          apply grown_push. exists dirPath. left. exists file. auto.
        - rewrite push_run. apply grown_push.
          exists dirPath. right. exists file. auto. }
      pose proof (for_of_invariant (grown rootPath) (visit fuel dirPath rootPath)
                    names (grown_refl rootPath) (grown_trans rootPath) Hvisit st)
        as Hloop.
      destruct (for_of names (visit fuel dirPath rootPath) st) as [[[] | e |] st1];
        simpl in Hloop; cbn iota beta; try exact Hloop.
      rewrite console_error_run.
      eapply grown_trans; [exact Hloop | apply grown_log].
    + rewrite console_error_run. apply grown_log.
Qed.

Lemma getFilesRecursively_never_throws (fuel : nat) (dirPath rootPath : string)
    (st : Listing) :
  fst (getFilesRecursively fuel dirPath rootPath st) = Returned tt
  \/ fst (getFilesRecursively fuel dirPath rootPath st) = Starved.
Proof.
  destruct fuel as [| fuel]; [right; reflexivity |].
  rewrite getFilesRecursively_step, try_catch_run.
  match goal with
  | |- context [match ?c with _ => _ end] =>
      destruct c as [[[] | e |] st1]
  end; simpl; auto.
Qed.

(** X16.  The eager provider never throws and only appends: whatever the
    file system does, a call of [getFilesRecursively] returns (or uses up
    its fuel) with the items and the console it was given still in front,
    and every item it has added is the folder item of a directory with a
    shown name or the file item of an entry that is not a directory, with
    the path of its directory joined with its label. *)
Theorem eager_provider_only_appends (fuel : nat) (dirPath rootPath : string)
    (st : Listing) :
  exists o its log,
    getFilesRecursively fuel dirPath rootPath st = (o, extend st its log)
    /\ (o = Returned tt \/ o = Starved)
    /\ forall x, x ∈ its -> eager_child rootPath x.
Proof.
  pose proof (getFilesRecursively_grows fuel dirPath rootPath st)
    as (its & log & Hst & Hits).
  pose proof (getFilesRecursively_never_throws fuel dirPath rootPath st) as Ho.
  destruct (getFilesRecursively fuel dirPath rootPath st) as [o st'].
  simpl in *. subst st'. exists o, its, log. auto.
Qed.

(** X17.  One entry that cannot be stat'ed empties the lazy listing of its
    directory: when [statSync] throws on an entry, the entries before it
    having been stat'ed, the children of the folder are the empty list and
    the error is logged, whatever else the directory holds. *)
Theorem failed_stat_empties_the_lazy_listing (dirPath : string)
    (before : list string) (file : string) (after_it : list string) (e : error) :
  readdirSync dirPath = Ok (before ++ file :: after_it) ->
  (forall n, n ∈ before -> exists b, statSync (join dirPath n) = Ok b) ->
  statSync (join dirPath file) = Err e ->
  forall label log,
    getChildren (Some (FolderItem label dirPath)) log
      = (Returned [], log ++ reading_failed e).
Proof.
  intros Hread Hbefore Hfile label log.
  exact (getFolderContents_failed_stat dirPath before file after_it e log
           Hread Hbefore Hfile).
Qed.

Lemma for_of_app {A} (body : A -> M Listing unit) (l1 l2 : list A) (st : Listing) :
  for_of (l1 ++ l2) body st
    = match for_of l1 body st with
      | (Returned _, st1) => for_of l2 body st1
      | r => r
      end.
Proof.
  revert st. induction l1 as [| x l1 IH]; intros st; [reflexivity |].
  simpl. rewrite !bind_run.
  destruct (body x st) as [[[] | e |] st1]; [apply IH | reflexivity | reflexivity].
Qed.

(** X18.  In the eager provider the same failure cuts the directory short:
    what the entries before the failing one have pushed (their sub-trees
    included) stays in the list, the error is logged, and the entries after
    it are not visited. *)
Theorem failed_stat_cuts_the_eager_listing (fuel : nat) (dirPath rootPath : string)
    (before : list string) (file : string) (after_it : list string) (e : error)
    (st st1 : Listing) :
  readdirSync dirPath = Ok (before ++ file :: after_it) ->
  statSync (join dirPath file) = Err e ->
  for_of before (visit fuel dirPath rootPath) st = (Returned tt, st1) ->
  getFilesRecursively (S fuel) dirPath rootPath st
    = (Returned tt, extend st1 [] (reading_failed e)).
Proof.
  intros Hread Hfile Hbefore.
  rewrite getFilesRecursively_step, try_catch_run, bind_run. unfold settle at 1.
  rewrite Hread. cbn iota beta. rewrite for_of_app, Hbefore.
  simpl. rewrite bind_run. unfold visit at 1. rewrite bind_run. unfold settle at 1.
  rewrite Hfile. cbn iota beta. apply console_error_run.
Qed.

End EagerAlways.

Section ListingCount.

Context {ws : Workspace}.

#[local] Existing Instance kept_directory_dec.
#[local] Existing Instance plain_file_dec.

(** A sub-directory that the providers leave out. *)
Definition hidden_directory (dirPath file : string) : Prop :=
  statSync (join dirPath file) = Ok true /\ shown_directory file = false.

#[local] Instance hidden_directory_dec dirPath file :
  Decision (hidden_directory dirPath file).
Proof. unfold hidden_directory. apply _. Defined.

Lemma entries_partition (dirPath : string) (names : list string) :
  (forall n, n ∈ names -> exists b, statSync (join dirPath n) = Ok b) ->
  length (filter (kept_directory dirPath) names)
    + length (filter (plain_file dirPath) names)
    + length (filter (hidden_directory dirPath) names)
  = length names.
Proof.
  induction names as [| n names IH]; intros Hstat; [reflexivity |].
  assert (forall m, m ∈ names -> exists b, statSync (join dirPath m) = Ok b) as Hrest.
  { intros m Hm. apply Hstat. right. exact Hm. }
  specialize (IH Hrest). destruct (Hstat n) as [b Hb]; [left |].
  rewrite !filter_cons.
  destruct (decide (kept_directory dirPath n)) as [[Hk Hs] | Hnk];
    destruct (decide (plain_file dirPath n)) as [Hp | Hnp];
    destruct (decide (hidden_directory dirPath n)) as [[Hh Hh'] | Hnh];
    unfold kept_directory, plain_file, hidden_directory in *;
    simpl; try congruence; try lia.
  exfalso. destruct b; [| congruence].
  destruct (shown_directory n); tauto.
Qed.

(** X19.  The lazy listing neither loses nor repeats an entry: in an open
    workspace, for a directory that is read and whose entries are all
    stat'ed, the children are a rearrangement of one folder item per shown
    sub-directory and one file item per other entry, so that the number of
    children and the number of hidden sub-directories add up to the number
    of entries. *)
Theorem lazy_listing_has_one_item_per_entry (root dirPath : string)
    (names : list string) (log : list (string * error)) :
  workspaceFolders = Some root ->
  readdirSync dirPath = Ok names ->
  (forall n, n ∈ names -> exists b, statSync (join dirPath n) = Ok b) ->
  exists children,
    getFolderContents dirPath log = (Returned children, log)
    /\ children
       ≡ₚ (folder_of dirPath <$> filter (kept_directory dirPath) names)
            ++ (file_of root dirPath <$> filter (plain_file dirPath) names)
    /\ length children + length (filter (hidden_directory dirPath) names)
       = length names.
Proof.
  intros Hroot Hread Hstat.
  exists ((folder_of dirPath <$> sort (filter (kept_directory dirPath) names))
            ++ (file_of root dirPath <$> sort (filter (plain_file dirPath) names))).
  split; [| split].
  - unfold getFolderContents, with_new_array.
    rewrite (getDirectoryContents_readable root dirPath names) by assumption.
    unfold extend. simpl. rewrite app_nil_r. reflexivity.
  - unfold sort. rewrite !merge_sort_Permutation. reflexivity.
  - rewrite length_app, !length_fmap. unfold sort.
    rewrite !(Permutation_length (merge_sort_Permutation _ _)).
    apply entries_partition, Hstat.
Qed.

(** X21.  A folder expanded after the workspace folder has gone (the items
    were listed while it was open): the non-null assertion on
    [workspaceFolders] throws at the first file, after the folder items have
    been pushed.  The children are then the sorted folder items alone, and a
    [TypeError] is logged when the directory holds an entry that is not a
    directory; the root request returns the empty list. *)
Theorem folder_expanded_without_workspace (dirPath : string) (names : list string)
    (label : string) (log : list (string * error)) :
  workspaceFolders = None ->
  readdirSync dirPath = Ok names ->
  (forall n, n ∈ names -> exists b, statSync (join dirPath n) = Ok b) ->
  getChildren None log = (Returned [], log)
  /\ getChildren (Some (FolderItem label dirPath)) log
     = (Returned (folder_of dirPath <$> sort (filter (kept_directory dirPath) names)),
        log ++
          if decide (filter (plain_file dirPath) names = []) then []
          else reading_failed
                 "TypeError: Cannot read properties of undefined (reading '0')").
Proof.
  intros Hroot Hread Hstat. split.
  - simpl. unfold getWorkspaceFiles. rewrite Hroot. reflexivity.
  - simpl. unfold getFolderContents, with_new_array, getDirectoryContents.
    rewrite try_catch_run, bind_run. unfold settle at 1. rewrite Hread.
    rewrite bind_run, (classify_all_stated dirPath names [] [] _ Hstat).
    cbn [app]. rewrite bind_run, push_folders.
    rewrite push_files_without_workspace by exact Hroot.
    destruct (sort (filter (plain_file dirPath) names)) as [| f rest] eqn:Hsorted.
    + assert (filter (plain_file dirPath) names = []) as ->.
      { apply Permutation_nil_r. rewrite <- Hsorted. unfold sort.
        symmetry. apply merge_sort_Permutation. }
      rewrite decide_True by reflexivity.
      unfold extend. simpl. rewrite !app_nil_r. reflexivity.
    + rewrite decide_False.
      * rewrite console_error_run. unfold extend. simpl.
        rewrite !app_nil_r. reflexivity.
      * intros Hnil. rewrite Hnil in Hsorted. discriminate.
Qed.

End ListingCount.

(** ** The single-view provider *)

(** What [CMVCExplorerProvider.getChildren] reads and writes: the service,
    for [getConfig], and the console, for the errors of the listing. *)
Record ExplorerState : Type := mkExplorerState {
  explorerService : World;
  explorerConsole : list (string * error)
}.

Definition with_service {A} (c : M World A) : M ExplorerState A := fun st =>
  let '(o, w) := c (explorerService st) in (o, mkExplorerState w (explorerConsole st)).

Definition with_console {A} (c : M (list (string * error)) A) : M ExplorerState A :=
  fun st =>
    let '(o, log) := c (explorerConsole st) in
    (o, mkExplorerState (explorerService st) log).

Module CMVCExplorerProvider.

Section Provider.

Context {ws : Workspace}.
Variable fuel : nat.

Definition getChildren (element : option CMVCExplorerItem) :
    M ExplorerState (list CMVCExplorerItem) :=
  match element with
  | None =>
      mret [ConfigSectionItem "Configuration";
            FileExplorerItem "Files";
            TrackSectionItem "Track"]
  | Some (ConfigSectionItem _) =>
      config ← with_service getConfig;
      mret [ConfigItem "Family" (family config) "cmvc.setFamily";
            ConfigItem "Release" (release config) "cmvc.setRelease";
            ConfigItem "Defect" (defect config) "cmvc.setDefect"]
  | Some (FileExplorerItem _) => with_console (getFiles fuel)
  | Some (TrackSectionItem _) => mret [TrackItem "Track support in the future"]
  | Some _ => mret []
  end.

End Provider.

End CMVCExplorerProvider.

Section SingleView.

Context {ws : Workspace}.

Lemma getFiles_children (fuel : nat) (log log' : list (string * error))
    (children : list CMVCExplorerItem) (x : CMVCExplorerItem) :
  getFiles fuel log = (Returned children, log') ->
  x ∈ children ->
  exists n p, x = FolderItem n p \/ exists r, x = FileItem n p r.
Proof.
  unfold getFiles. destruct workspaceFolders as [root |].
  - unfold with_new_array.
    pose proof (getFilesRecursively_grows fuel root root (mkListing [] log))
      as (its & more & Hst & Hits).
    destruct (getFilesRecursively fuel root root (mkListing [] log))
      as [[[] | e |] st']; try discriminate.
    simpl in Hst. subst st'. intros Hrun Hx. injection Hrun as <- _.
    destruct (Hits x Hx) as (p & [(n & -> & _) | (n & -> & _)]); eauto.
  - intros Hrun Hx. injection Hrun as <- _. apply elem_of_nil in Hx. contradiction.
Qed.

(** X20.  The tree of the single-view provider is two levels deep.  Each
    item it returns for one of its three sections is a leaf to it: asked for
    the children of a configuration item, of the track item, or of any file
    or folder item of the flat list under [Files] (folder items are
    nevertheless created collapsed, not as leaves), it returns the empty
    list and touches neither the file system nor the console. *)
Theorem single_view_tree_is_two_levels_deep (fuel : nat)
    (section child : CMVCExplorerItem) (children : list CMVCExplorerItem)
    (st0 st st' st'' : ExplorerState) :
  section ∈ match CMVCExplorerProvider.getChildren fuel None st0 with
            | (Returned roots, _) => roots
            | _ => []
            end ->
  CMVCExplorerProvider.getChildren fuel (Some section) st = (Returned children, st') ->
  child ∈ children ->
  CMVCExplorerProvider.getChildren fuel (Some child) st'' = (Returned [], st'')
  /\ (forall label fullPath,
        child = FolderItem label fullPath -> collapsibleState child = Collapsed).
Proof.
  intros Hsection Hrun Hchild. split; [| intros label fullPath ->; reflexivity].
  simpl in Hsection.
  apply elem_of_cons in Hsection as [-> | Hsection];
    [| apply elem_of_cons in Hsection as [-> | Hsection];
       [| apply list_elem_of_singleton in Hsection as ->]].
  - simpl in Hrun. rewrite bind_run in Hrun. simpl in Hrun.
    injection Hrun as <- _.
    repeat (apply elem_of_cons in Hchild as [-> | Hchild]; [reflexivity |]).
    apply elem_of_nil in Hchild. contradiction.
  - simpl in Hrun. unfold with_console in Hrun.
    destruct (getFiles fuel (explorerConsole st)) as [[files | e |] log'] eqn:Hfiles;
      try discriminate.
    injection Hrun as <- _.
    destruct (getFiles_children fuel _ _ _ _ Hfiles Hchild)
      as (n & p & [-> | [r ->]]); reflexivity.
  - simpl in Hrun. injection Hrun as <- _.
    apply list_elem_of_singleton in Hchild as ->. reflexivity.
Qed.

End SingleView.

(** ** From the tree to the command runner *)

Section ListedItems.

Context {ws : Workspace}.
Variable execAsync : string -> result (string * string).
Variable openTextDocument : TextDocument -> result TextDocument.
Variable showTextDocument : TextDocument -> result unit.

Lemma lazy_child_kind (p : string) (x : CMVCExplorerItem) :
  lazy_child p x ->
  exists label, x = FolderItem label (join p label)
    \/ exists r, x = FileItem label (join p label) r.
Proof.
  intros [(n & -> & _) | (root & _ & n & -> & _)]; exists n; eauto.
Qed.

Lemma lazy_reachable_kind (x : CMVCExplorerItem) :
  lazy_reachable x ->
  exists label fullPath,
    x = FolderItem label fullPath \/ exists r, x = FileItem label fullPath r.
Proof.
  intros Hreach.
  destruct Hreach as [log children log' x Hrun Hx
                     | parent log children log' x Hparent Hrun Hx].
  - destruct workspaceFolders as [root |] eqn:Hroot.
    + rewrite (getChildren_root root) in Hrun by exact Hroot.
      destruct (getFolderContents_children root log)
        as (children' & more & Hrun' & Hshape).
      rewrite Hrun in Hrun'. injection Hrun' as <- _.
      destruct (lazy_child_kind root x (Hshape x Hx)) as [label Hkind]. eauto.
    + simpl in Hrun. unfold getWorkspaceFiles in Hrun. rewrite Hroot in Hrun.
      injection Hrun as <- _. apply elem_of_nil in Hx. contradiction.
  - destruct parent as [| | | | label q | |]; simpl in Hrun;
      try (injection Hrun as <- _; apply elem_of_nil in Hx; contradiction).
    destruct (getFolderContents_children q log)
      as (children' & more & Hrun' & Hshape).
    rewrite Hrun in Hrun'. injection Hrun' as <- _.
    destruct (lazy_child_kind q x (Hshape x Hx)) as [label' Hkind]. eauto.
Qed.

(** X22.  Every item of the lazy tree passes the guard of the command
    handlers: it carries a [resourceUri], and [cmvc.checkin],
    [cmvc.checkout] and [cmvc.view] run the service operation on its path.
    The handlers do not look at the kind of the item, so this holds for
    folder items as for file items. *)
Theorem listed_items_reach_the_service (x : CMVCExplorerItem) (w : World) :
  lazy_reachable x ->
  exists fsPath,
    resourceUri x = Some fsPath
    /\ cmvc_checkin execAsync (Some x) w = checkin execAsync fsPath w
    /\ cmvc_checkout execAsync (Some x) w = checkout execAsync fsPath w
    /\ cmvc_view execAsync openTextDocument showTextDocument (Some x) w
       = view execAsync openTextDocument showTextDocument fsPath w.
Proof.
  intros Hreach.
  destruct (lazy_reachable_kind x Hreach) as (label & fullPath & [-> | [r ->]]);
    exists fullPath; repeat split.
Qed.

End ListedItems.

(** * The further properties on sample inputs *)

Definition rejecting_shell (command : string) : result (string * string) :=
  Err "Error: Command failed: /bin/sh: File: command not found".

Definition open_nothing (doc : TextDocument) : result TextDocument :=
  Err "Error: cannot open untitled document".

Definition extension_F1 : Extension := mkExtension world_F1 0.

(** The project, seen after its workspace folder has been closed. *)
Definition closed_project : Workspace := {|
  readdirSync := project_readdir;
  statSync := fun p => Ok (project_is_directory p);
  join := posix_join;
  relative := below_root;
  workspaceFolders := None
|}.

(** A dangling link between two files. *)
Definition cut_short_readdir (p : string) : result (list string) :=
  if String.eqb p "/ws" then Ok ["a.txt"; "gone"; "z.txt"]
  else Err "ENOENT: no such file or directory".

Definition cut_short : Workspace := {|
  readdirSync := cut_short_readdir;
  statSync := dangling_stat;
  join := posix_join;
  relative := below_root;
  workspaceFolders := Some "/ws"
|}.

Lemma rejecting_shell_is_reported :
  checkin rejecting_shell "/ws/a.txt" world_F1
    = (Returned tt,
       after world_F1
         [ExecAsync (checkin_command "/ws/a.txt" (config world_F1));
          ShowErrorMessage
            "Checkin failed: Error: Command failed: /bin/sh: File: command not found"]).
Proof.
  apply (proj1 (rejected_process_is_reported rejecting_shell open_any show_any
                  "/ws/a.txt" _ world_F1 eq_refl) eq_refl eq_refl).
Defined.

Lemma unopened_document_is_reported :
  view quiet_shell open_nothing show_any "/ws/a.txt" world_F1
    = (Returned tt,
       after world_F1
         [ExecAsync (view_command "/ws/a.txt" (config world_F1));
          OpenTextDocument (mkDocument "done" "text");
          ShowErrorMessage "View failed: Error: cannot open untitled document"]).
Proof.
  apply (proj1 (view_reports_document_failures quiet_shell open_nothing show_any
                  "/ws/a.txt" "done" _ world_F1 eq_refl eq_refl) eq_refl).
Defined.

Lemma view_runs_without_defect :
  checkin quiet_shell "/ws/a.txt" world_no_defect
    = (Returned tt, after world_no_defect [ShowErrorMessage needs_all])
  /\ checkout quiet_shell "/ws/a.txt" world_no_defect
    = (Returned tt, after world_no_defect [ShowErrorMessage needs_all])
  /\ exists reports,
       view quiet_shell open_any show_any "/ws/a.txt" world_no_defect
         = (Returned tt,
            after world_no_defect
              (ExecAsync (view_command "/ws/a.txt" (config world_no_defect))
                 :: reports)).
Proof.
  apply (view_needs_no_defect quiet_shell open_any show_any "/ws/a.txt"
           world_no_defect); [discriminate | discriminate | reflexivity].
Defined.

Lemma empty_store_refuses :
  checkin quiet_shell "/ws/a.txt" (reload ∅)
    = (Returned tt, after (reload ∅) [ShowErrorMessage needs_all])
  /\ checkout quiet_shell "/ws/a.txt" (reload ∅)
    = (Returned tt, after (reload ∅) [ShowErrorMessage needs_all])
  /\ view quiet_shell open_any show_any "/ws/a.txt" (reload ∅)
    = (Returned tt, after (reload ∅) [ShowErrorMessage needs_two]).
Proof.
  apply (nothing_saved_nothing_run quiet_shell open_any show_any ∅ "/ws/a.txt").
  left. reflexivity.
Defined.

Lemma dismissed_family_prompt :
  cmvc_setFamily (fun _ _ => None) extension_F1
    = (Returned tt,
       mkExtension (after world_F1 [ShowInputBox "Enter Family value" "F1"]) 0).
Proof.
  apply (proj1 (dismissed_prompt_changes_nothing (fun _ _ => None) extension_F1)).
  reflexivity.
Defined.

Lemma cleared_family_is_displayed :
  exists x',
    cmvc_setFamily (fun _ _ => Some EmptyString) extension_F1 = (Returned tt, x')
    /\ configProviderFired x' = 1
    /\ storage (service x') !! "cmvc.family" = Some EmptyString
    /\ configuration_view (service x')
       = ["Family: Not set"; "Release: R1"; "Defect: D1"].
Proof.
  apply (proj1 (typed_value_is_set_and_displayed (fun _ _ => Some EmptyString)
                  EmptyString extension_F1)).
  reflexivity.
Defined.

Lemma component_is_remembered :
  storage (snd (cmvc_create quiet_shell (fun _ _ => Some "comp")
                  (Some (FileItem "a.txt" "/ws/a.txt" "a.txt")) world_F1))
    !! "cmvc.lastComponent" = Some "comp".
Proof.
  apply (proj1 (create_remembers_the_component quiet_shell (fun _ _ => Some "comp")
                  (Some (FileItem "a.txt" "/ws/a.txt" "a.txt")) "/ws/a.txt" "comp"
                  world_F1 eq_refl eq_refl ltac:(discriminate))).
Defined.

Lemma failed_create_does_not_refresh :
  exists w' es,
    cmvc_create failing_shell (fun _ _ => Some "comp")
      (Some (FileItem "a.txt" "/ws/a.txt" "a.txt")) world_F1 = (Returned tt, w')
    /\ effects w' = effects world_F1 ++ es
    /\ (FilesProviderRefresh ∈ es <->
        exists component stdout,
          Some "comp" = Some component
          /\ component <> EmptyString
          /\ failing_shell (create_command "/ws/a.txt" component (config world_F1))
             = Ok (stdout, EmptyString)).
Proof.
  apply (create_refreshes_on_success_only failing_shell (fun _ _ => Some "comp")
           (Some (FileItem "a.txt" "/ws/a.txt" "a.txt")) "/ws/a.txt" world_F1).
  reflexivity.
Defined.

Lemma plain_commands_are_unambiguous :
  "/ws/a.txt" = "/ws/a.txt" /\ config world_F1 = config world_F1.
Proof.
  apply (proj1 (quote_free_commands_are_unambiguous "/ws/a.txt" "/ws/a.txt"
                  (config world_F1) (config world_F1)
                  eq_refl eq_refl eq_refl eq_refl)).
  reflexivity.
Defined.

Lemma checked_in_file_is_named :
  checkin quiet_shell ("/ws/src" +:+ "/" +:+ "m.ts") world_F1
    = (Returned tt,
       after world_F1
         [ExecAsync (checkin_command ("/ws/src" +:+ "/" +:+ "m.ts") (config world_F1));
          ShowInformationMessage ("Successfully checked in: " +:+ "m.ts")]).
Proof.
  apply (proj1 (success_message_names_the_entry quiet_shell "/ws/src" "m.ts" "done"
                  world_F1 ltac:(discriminate) eq_refl eq_refl)).
  reflexivity.
Defined.

#[local] Existing Instance kept_directory_dec.
#[local] Existing Instance plain_file_dec.
#[local] Existing Instance hidden_directory_dec.

Lemma project_env_is_reachable :
  @lazy_reachable project (FileItem ".env" "/ws/.env" ".env").
Proof.
  eapply (@reachable_root project []); [reflexivity |].
  do 2 right. left.
Qed.

Lemma project_env_is_a_child :
  exists p,
    @lazy_child project p (FileItem ".env" "/ws/.env" ".env")
    /\ (@workspaceFolders project = Some p
        \/ exists label, @lazy_reachable project (FolderItem label p)).
Proof.
  apply (@lazy_tree_shows_no_hidden_directory project). apply project_env_is_reachable.
Defined.

Lemma dangling_root_is_empty :
  @getChildren dangling (Some (FolderItem "ws" "/ws")) []
    = (Returned [],
       reading_failed "ENOENT: no such file or directory, stat '/ws/gone'").
Proof.
  apply (@failed_stat_empties_the_lazy_listing dangling "/ws" ["a.txt"] "gone" []
           "ENOENT: no such file or directory, stat '/ws/gone'" eq_refl).
  - intros n Hn. apply list_elem_of_singleton in Hn as ->. eexists. reflexivity.
  - reflexivity.
Defined.

Lemma cut_short_drops_the_rest :
  @getFilesRecursively cut_short 1 "/ws" "/ws" (mkListing [] [])
    = (Returned tt,
       extend (mkListing [FileItem "a.txt" "/ws/a.txt" "a.txt"] []) []
         (reading_failed "ENOENT: no such file or directory, stat '/ws/gone'")).
Proof.
  apply (@failed_stat_cuts_the_eager_listing cut_short 0 "/ws" "/ws"
           ["a.txt"] "gone" ["z.txt"]); reflexivity.
Defined.

Lemma project_root_counts :
  exists children,
    @getFolderContents project "/ws" [] = (Returned children, [])
    /\ children
       ≡ₚ (@folder_of project "/ws"
             <$> filter (@kept_directory project "/ws")
                   ["src"; "b.txt"; ".git"; ".env"; "node_modules"; "a.txt"; "lib"])
            ++ (@file_of project "/ws" "/ws"
                  <$> filter (@plain_file project "/ws")
                        ["src"; "b.txt"; ".git"; ".env"; "node_modules"; "a.txt"; "lib"])
    /\ length children
         + length (filter (@hidden_directory project "/ws")
                     ["src"; "b.txt"; ".git"; ".env"; "node_modules"; "a.txt"; "lib"])
       = 7.
Proof.
  apply (@lazy_listing_has_one_item_per_entry project "/ws" "/ws" _ [] eq_refl eq_refl).
  intros n Hn. eexists. reflexivity.
Defined.

Lemma closed_project_lists_folders_only :
  @getChildren closed_project None [] = (Returned [], [])
  /\ @getChildren closed_project (Some (FolderItem "ws" "/ws")) []
     = (Returned
          (@folder_of closed_project "/ws"
             <$> sort (filter (@kept_directory closed_project "/ws")
                         ["src"; "b.txt"; ".git"; ".env"; "node_modules"; "a.txt"; "lib"])),
        [] ++
          if decide (filter (@plain_file closed_project "/ws")
                       ["src"; "b.txt"; ".git"; ".env"; "node_modules"; "a.txt"; "lib"]
                     = [])
          then []
          else reading_failed
                 "TypeError: Cannot read properties of undefined (reading '0')").
Proof.
  apply (@folder_expanded_without_workspace closed_project "/ws" _ "ws" []
           eq_refl eq_refl).
  intros n Hn. eexists. reflexivity.
Defined.

Example closed_project_listing :
  @getChildren closed_project (Some (FolderItem "ws" "/ws")) []
    = (Returned [FolderItem "lib" "/ws/lib"; FolderItem "src" "/ws/src"],
       reading_failed "TypeError: Cannot read properties of undefined (reading '0')").
Proof. reflexivity. Qed.

Lemma project_folder_is_a_leaf_in_single_view :
  @CMVCExplorerProvider.getChildren project 2 (Some (FolderItem "src" "/ws/src"))
      (mkExplorerState world_F1 [])
    = (Returned [], mkExplorerState world_F1 [])
  /\ (forall label fullPath,
        FolderItem "src" "/ws/src" = FolderItem label fullPath ->
        collapsibleState (FolderItem "src" "/ws/src") = Collapsed).
Proof.
  eapply (@single_view_tree_is_two_levels_deep project 2 (FileExplorerItem "Files")
            (FolderItem "src" "/ws/src") _
            (mkExplorerState world_F1 []) (mkExplorerState world_F1 [])).
  - right. left.
  - reflexivity.
  - left.
Defined.

Lemma project_env_reaches_the_service :
  exists fsPath,
    resourceUri (FileItem ".env" "/ws/.env" ".env") = Some fsPath
    /\ cmvc_checkin quiet_shell (Some (FileItem ".env" "/ws/.env" ".env")) world_F1
       = checkin quiet_shell fsPath world_F1
    /\ cmvc_checkout quiet_shell (Some (FileItem ".env" "/ws/.env" ".env")) world_F1
       = checkout quiet_shell fsPath world_F1
    /\ cmvc_view quiet_shell open_any show_any
         (Some (FileItem ".env" "/ws/.env" ".env")) world_F1
       = view quiet_shell open_any show_any fsPath world_F1.
Proof.
  apply (@listed_items_reach_the_service project quiet_shell open_any show_any).
  apply project_env_is_reachable.
Defined.
